(** * react-skia-pack: the canvas surface lifecycle, the render loop and the
      pointer bridge of [SkiaCanvas] and [SkiaInteractiveCanvas]

    The two React components keep three refs ([canvasRef], [surfaceRef],
    [animationFrameRef]) and talk to two foreign parties: the CanvasKit engine
    (surface construction, [delete], [getCanvas], [flush]) and the browser
    ([requestAnimationFrame], [cancelAnimationFrame], pointer capture).  The
    embedding below threads a [World] (the refs, the browser's frame queue and
    the log of every foreign call) through a small state-and-exception monad.
    What the foreign parties answer is not decided by this repository: the
    world carries an arbitrary function [respond] from the call history to a
    reply, and every general statement quantifies over it.

    JavaScript numbers are read in two ways.  The coordinates of the canvas,
    of pointer events and of the shapes of a hit test are exact rationals
    ([Qc]): what is stated of them either involves no arithmetic or involves
    arithmetic that IEEE doubles carry out exactly.  Where rounding, [NaN] or
    the integer conversion of the DOM decide the outcome - the size of the
    buffer, [clamp], the drag state, the slider - numbers are IEEE binary64
    values ([Double.number], the [spec_float] of the Standard Library). *)

From Stdlib Require Import List Bool ZArith PArith QArith Qcanon Qround Lia.
From Stdlib Require Import Lqa.
From Stdlib Require Import SpecFloat.
From Stdlib Require Strings.String.
Import ListNotations.

Set Implicit Arguments.

(* ------------------------------------------------------------------------- *)
(** ** Numbers *)

Definition num (z : Z) : Qc := Q2Qc (inject_Z z).

(** [window.devicePixelRatio || 1]: the only falsy rational is zero. *)
Definition or_one (d : Qc) : Qc :=
  if Qc_eq_dec d (num 0) then num 1 else d.

(** [Math.ceil], as the specification uses it. *)
Definition ceil (q : Qc) : Qc := num (Qceiling (this q)).

(** [Math.floor]. *)
Definition floor (q : Qc) : Qc := num (Qfloor (this q)).

(* ------------------------------------------------------------------------- *)
(** ** IEEE doubles *)

Module Double.

(** binary64: 53 bits of precision, exponents below 1024. *)
Definition prec : Z := 53.
Definition emax : Z := 1024.

Definition number : Type := spec_float.

Definition NaN : number := S754_nan.

(** [a + b], [a - b], [a * b] and [a / b], rounding to nearest, ties to
    even. *)
Definition add : number -> number -> number := SFadd prec emax.
Definition sub : number -> number -> number := SFsub prec emax.
Definition mul : number -> number -> number := SFmul prec emax.
Definition div : number -> number -> number := SFdiv prec emax.

(** [a < b], [a <= b] and [a === b]: false whenever an operand is [NaN];
    the two zeros are equal. *)
Definition ltb : number -> number -> bool := SFltb.
Definition leb : number -> number -> bool := SFleb.
Definition eqb : number -> number -> bool := SFeqb.

Definition is_nan (a : number) : bool :=
  match a with
  | S754_nan => true
  | _ => false
  end.

(** Neither [NaN] nor an infinity. *)
Definition is_finite (a : number) : bool :=
  match a with
  | S754_zero _ | S754_finite _ _ _ => true
  | _ => false
  end.

(** The double of an integer literal. *)
Definition of_Z (z : Z) : number := binary_normalize prec emax z 0 false.

(** [Some k] when [p] is the [k]-th power of two. *)
Fixpoint power_of_two (p : positive) : option Z :=
  match p with
  | xH => Some 0%Z
  | xO q => option_map Z.succ (power_of_two q)
  | xI _ => None
  end.

(** The double a rational stands for: the rational itself when it is a
    double (its denominator is then a power of two), and otherwise the
    quotient of its numerator by its denominator as doubles compute it. *)
Definition of_Q (q : Q) : number :=
  match power_of_two (Qden q) with
  | Some k => binary_normalize prec emax (Qnum q) (- k) false
  | None => div (of_Z (Qnum q)) (of_Z (Zpos (Qden q)))
  end.

(** The rational a finite double is; zero for the others. *)
Definition to_Q (a : number) : Q :=
  match a with
  | S754_finite s m (Zneg k) => Qmake (if s then Zneg m else Zpos m) (2 ^ k)
  | S754_finite s m e => inject_Z ((if s then Zneg m else Zpos m) * 2 ^ e)
  | _ => 0%Q
  end.

(** The integer part, towards zero, of a finite double; zero for the
    others. *)
Definition integer_part (a : number) : Z :=
  match a with
  | S754_finite s m e =>
      let n := Z.shiftl (Zpos m) e in
      if s then (- n)%Z else n
  | _ => 0%Z
  end.

(** [Math.round(a)]: the integer nearest to [a], a half going up; the sign
    of [a] is kept when the result is zero.  A double with a non-negative
    exponent is an integer already. *)
Definition round (a : number) : number :=
  match a with
  | S754_finite s m (Zneg k) =>
      let n := if s then Zneg m else Zpos m in
      let r := ((2 * n + 2 ^ Zpos k) / 2 ^ (Zpos k + 1))%Z in
      if (r =? 0)%Z then S754_zero s else of_Z r
  | _ => a
  end.

(** [Math.max(a, b)] and [Math.min(a, b)]: [NaN] if an argument is; of the
    two zeros, +0 is the larger. *)
Definition max (a b : number) : number :=
  if is_nan a || is_nan b then NaN
  else if ltb a b then b
  else if ltb b a then a
  else match a with
       | S754_zero true => b
       | _ => a
       end.

Definition min (a b : number) : number :=
  if is_nan a || is_nan b then NaN
  else if ltb a b then a
  else if ltb b a then b
  else match a with
       | S754_zero false => b
       | _ => a
       end.

(** Where a double that is not [NaN] stands in the order of [<]: the
    infinities outside, the two zeros together in the middle, the finite
    doubles by exponent and then by mantissa. *)
Definition rank (a : number) : Z * (Z * Z) :=
  match a with
  | S754_infinity true => (-2, (0, 0))%Z
  | S754_finite true m e => (-1, (- e, - Zpos m))%Z
  | S754_zero _ | S754_nan => (0, (0, 0))%Z
  | S754_finite false m e => (1, (e, Zpos m))%Z
  | S754_infinity false => (2, (0, 0))%Z
  end.

Definition below (r s : Z * (Z * Z)) : Prop :=
  (fst r < fst s)%Z \/
  (fst r = fst s /\
   ((fst (snd r) < fst (snd s))%Z \/
    (fst (snd r) = fst (snd s) /\ (snd (snd r) < snd (snd s))%Z))).

End Double.

(** A rational where the code has a number, as the double it is. *)
Definition to_double (q : Qc) : Double.number := Double.of_Q (this q).

(** [a * b] on two such numbers. *)
Definition js_mul (a b : Qc) : Double.number :=
  Double.mul (to_double a) (to_double b).

(** The conversion of a number to the [unsigned long] of Web IDL: [NaN] and
    the infinities give 0, anything else its integer part modulo 2^32. *)
Definition to_unsigned_long (v : Double.number) : Z :=
  (Double.integer_part v mod 2 ^ 32)%Z.

(** What [canvas.width] (default 300) or [canvas.height] (default 150) holds
    after [v] was assigned to it: the attribute reflects an [unsigned long]
    and falls back to its default above 2^31 - 1. *)
Definition canvas_size (default : Z) (v : Double.number) : Qc :=
  let n := to_unsigned_long v in
  num (if (n <=? 2147483647)%Z then n else default).

Arguments js_mul : simpl never.
Arguments canvas_size : simpl never.

(* ------------------------------------------------------------------------- *)
(** ** Data *)

(** An engine surface is an opaque handle. *)
Definition Surface := nat.

Inductive CanvasKit := TheCanvasKit.
Inductive Typeface := TheTypeface (n : nat).

(** [getBoundingClientRect()] of the canvas element. *)
Record DOMRect := {
  left : Qc;
  top : Qc;
  rect_width : Qc;
  rect_height : Qc
}.

(** The part of an [HTMLCanvasElement] the components read and write:
    [canvas.width], [canvas.height] (the backing buffer) and its layout box. *)
Record HTMLCanvasElement := {
  canvas_width : Qc;
  canvas_height : Qc;
  boundingClientRect : DOMRect
}.

Inductive PointerType := mouse | touch | pen.

(** The fields of a DOM [PointerEvent] that [normalizePointerEvent] reads. *)
Record PointerEvent := {
  clientX : Qc;
  clientY : Qc;
  ev_pressure : Qc;
  ev_pointerId : Z;
  ev_pointerType : PointerType;
  ev_isPrimary : bool;
  ev_buttons : Z;
  ev_shiftKey : bool;
  ev_ctrlKey : bool;
  ev_altKey : bool;
  ev_metaKey : bool
}.

(** [PointerEventData] of utils/interaction.ts. *)
Record PointerEventData := {
  x : Qc;
  y : Qc;
  pressure : Qc;
  pointerId : Z;
  pointerType : PointerType;
  isPrimary : bool;
  buttons : Z;
  shiftKey : bool;
  ctrlKey : bool;
  altKey : bool;
  metaKey : bool
}.

Record Point := { px : Qc; py : Qc }.

(** [InteractionState] of skia-interactive-canvas.tsx. *)
Record InteractionState := {
  isHovering : bool;
  isPressed : bool;
  pointerPosition : option Point;
  activePointerId : option Z
}.

(** What one render of a component closes over: the props and hook values
    that [setupSurface], [draw] and the pointer handlers capture.  The
    plain canvas has neither interaction state nor pointer props and ignores
    those fields. *)
Record Closure := {
  canvasKit : option CanvasKit;
  typeface : option Typeface;
  width : Qc;
  height : Qc;
  animate : bool;
  interactive : bool;
  interactionState : InteractionState;
  onPointerDown : bool;   (* is the optional callback prop present? *)
  onPointerMove : bool;
  onPointerUp : bool;
  onPointerLeave : bool
}.

(* ------------------------------------------------------------------------- *)
(** ** Foreign calls and their replies *)

Inductive Call :=
| MakeCanvasSurface (canvas : HTMLCanvasElement)
| MakeSWCanvasSurface (canvas : HTMLCanvasElement)
| SurfaceDelete (s : Surface)
| SurfaceGetCanvas (s : Surface)
| CanvasSave
| CanvasScale (sx sy : Qc)
| CanvasRestore
| SurfaceFlush (s : Surface)
| OnDraw (w h : Qc) (tf : option Typeface) (ist : option InteractionState)
| OnPointerDown (e : PointerEventData)
| OnPointerMove (e : PointerEventData)
| OnPointerUp (e : PointerEventData)
| OnPointerLeave
| SetPointerCapture (id : Z)
| HasPointerCapture (id : Z)
| ReleasePointerCapture (id : Z)
| ConsoleWarn
| ConsoleError.

Inductive Val :=
| VUndefined
| VNull
| VBool (b : bool)
| VSurface (s : Surface).

Inductive Reply :=
| Raise
| Value (v : Val).

Definition Event : Type := Call * Reply.

(** A callback handed to [requestAnimationFrame] is the [draw] of some
    render; the queue keeps the handle with the closure it will run. *)
Record World := {
  canvasRef : option HTMLCanvasElement;
  surfaceRef : option Surface;
  animationFrameRef : option positive;
  state : InteractionState;             (* the useState cell *)
  devicePixelRatio : Qc;                (* window.devicePixelRatio *)
  pending : list (positive * Closure);  (* frames requested, not yet run *)
  next_handle : positive;
  trace : list Event;                   (* newest first *)
  respond : list Event -> Call -> Reply
}.

(* ------------------------------------------------------------------------- *)
(** ** The monad: state, and exceptions as JavaScript raises them *)

Inductive Res (A : Type) :=
| Ok (a : A)
| Threw.
Arguments Threw {A}.

Definition M (A : Type) : Type := World -> Res A * World.

Definition ret {A} (a : A) : M A := fun w => (Ok a, w).

Definition bind {A B} (m : M A) (k : A -> M B) : M B :=
  fun w =>
    match m w with
    | (Ok a, w') => k a w'
    | (Threw, w') => (Threw, w')
    end.

Declare Scope m_scope.
Delimit Scope m_scope with m.
Notation "x <- c ;; k" := (bind c (fun x => k))
  (at level 61, c at next level, right associativity) : m_scope.
Notation "c ;; k" := (bind c (fun _ => k))
  (at level 61, right associativity) : m_scope.
Local Open Scope m_scope.

(** [try { body } catch { handler }] *)
Definition try_catch {A} (body handler : M A) : M A :=
  fun w =>
    match body w with
    | (Ok a, w') => (Ok a, w')
    | (Threw, w') => handler w'
    end.

Definition read {A} (f : World -> A) : M A := fun w => (Ok (f w), w).

Definition set_canvasRef (c : option HTMLCanvasElement) : M unit :=
  fun w => (Ok tt,
    {| canvasRef := c; surfaceRef := surfaceRef w;
       animationFrameRef := animationFrameRef w; state := state w;
       devicePixelRatio := devicePixelRatio w; pending := pending w;
       next_handle := next_handle w; trace := trace w;
       respond := respond w |}).

Definition set_surfaceRef (s : option Surface) : M unit :=
  fun w => (Ok tt,
    {| canvasRef := canvasRef w; surfaceRef := s;
       animationFrameRef := animationFrameRef w; state := state w;
       devicePixelRatio := devicePixelRatio w; pending := pending w;
       next_handle := next_handle w; trace := trace w;
       respond := respond w |}).

Definition set_animationFrameRef (h : option positive) : M unit :=
  fun w => (Ok tt,
    {| canvasRef := canvasRef w; surfaceRef := surfaceRef w;
       animationFrameRef := h; state := state w;
       devicePixelRatio := devicePixelRatio w; pending := pending w;
       next_handle := next_handle w; trace := trace w;
       respond := respond w |}).

(** [setInteractionState((prev) => f(prev))] *)
Definition setInteractionState (f : InteractionState -> InteractionState)
  : M unit :=
  fun w => (Ok tt,
    {| canvasRef := canvasRef w; surfaceRef := surfaceRef w;
       animationFrameRef := animationFrameRef w; state := f (state w);
       devicePixelRatio := devicePixelRatio w; pending := pending w;
       next_handle := next_handle w; trace := trace w;
       respond := respond w |}).

(** A call into the engine, the DOM or a caller-supplied callback: the reply
    is whatever the world answers after the history so far; the exchange is
    logged, and a [Raise] reply becomes a raised exception. *)
Definition call (c : Call) : M Val :=
  fun w =>
    let r := respond w (trace w) c in
    let w' :=
      {| canvasRef := canvasRef w; surfaceRef := surfaceRef w;
         animationFrameRef := animationFrameRef w; state := state w;
         devicePixelRatio := devicePixelRatio w; pending := pending w;
         next_handle := next_handle w; trace := (c, r) :: trace w;
         respond := respond w |} in
    match r with
    | Raise => (Threw, w')
    | Value v => (Ok v, w')
    end.

(** [console.warn] and [console.error] do not raise. *)
Definition console (c : Call) : M unit :=
  fun w => (Ok tt,
    {| canvasRef := canvasRef w; surfaceRef := surfaceRef w;
       animationFrameRef := animationFrameRef w; state := state w;
       devicePixelRatio := devicePixelRatio w; pending := pending w;
       next_handle := next_handle w;
       trace := (c, Value VUndefined) :: trace w;
       respond := respond w |}).

(** [requestAnimationFrame(cb)]: a fresh positive handle, and [cb] queued. *)
Definition requestAnimationFrame (cb : Closure) : M positive :=
  fun w => (Ok (next_handle w),
    {| canvasRef := canvasRef w; surfaceRef := surfaceRef w;
       animationFrameRef := animationFrameRef w; state := state w;
       devicePixelRatio := devicePixelRatio w;
       pending := pending w ++ [(next_handle w, cb)];
       next_handle := Pos.succ (next_handle w); trace := trace w;
       respond := respond w |}).

(** [cancelAnimationFrame(h)]: the request is dropped if still queued. *)
Definition cancelAnimationFrame (h : positive) : M unit :=
  fun w => (Ok tt,
    {| canvasRef := canvasRef w; surfaceRef := surfaceRef w;
       animationFrameRef := animationFrameRef w; state := state w;
       devicePixelRatio := devicePixelRatio w;
       pending := filter (fun e => negb (Pos.eqb (fst e) h)) (pending w);
       next_handle := next_handle w; trace := trace w;
       respond := respond w |}).

(** The browser takes frame [h] off the queue before it runs its callback. *)
Definition take_frame (h : positive) : M (option Closure) :=
  fun w =>
    (Ok (option_map snd
           (find (fun e => Pos.eqb (fst e) h) (pending w))),
     {| canvasRef := canvasRef w; surfaceRef := surfaceRef w;
        animationFrameRef := animationFrameRef w; state := state w;
        devicePixelRatio := devicePixelRatio w;
        pending := filter (fun e => negb (Pos.eqb (fst e) h)) (pending w);
        next_handle := next_handle w; trace := trace w;
        respond := respond w |}).

(** Truthiness of a returned value, and a returned [Surface | null]. *)
Definition truthy (v : Val) : bool :=
  match v with
  | VBool b => b
  | VSurface _ => true
  | VUndefined | VNull => false
  end.

Definition as_surface (v : Val) : option Surface :=
  match v with
  | VSurface s => Some s
  | _ => None
  end.

Definition isSome {A} (o : option A) : bool :=
  match o with Some _ => true | None => false end.

(** [canvasRef.current], dereferenced: a [TypeError] when the ref is null. *)
Definition the_canvas : M HTMLCanvasElement :=
  fun w =>
    match canvasRef w with
    | Some c => (Ok c, w)
    | None => (Threw, w)
    end.

(** [canvas.width = v] and [canvas.height = v] on the element the ref
    points to: the element keeps [canvas_size] of the number assigned. *)
Definition set_canvas_width (v : Double.number) : M unit :=
  c <- the_canvas ;;
  set_canvasRef (Some {| canvas_width := canvas_size 300 v;
                         canvas_height := canvas_height c;
                         boundingClientRect := boundingClientRect c |}).

Definition set_canvas_height (v : Double.number) : M unit :=
  c <- the_canvas ;;
  set_canvasRef (Some {| canvas_width := canvas_width c;
                         canvas_height := canvas_size 150 v;
                         boundingClientRect := boundingClientRect c |}).

(** [window.devicePixelRatio || 1] *)
Definition dpr_now : M Qc := read (fun w => or_one (devicePixelRatio w)).

(* ------------------------------------------------------------------------- *)
(** ** utils/interaction.ts *)

(** [normalizePointerEvent(e, canvas)], with [window.devicePixelRatio] passed
    in.  [Qc] gives [q / 0 = 0] where JavaScript gives [NaN] or an infinity:
    nothing below is stated for a bounding box of zero width or height. *)
Definition normalizePointerEvent
  (e : PointerEvent) (canvas : HTMLCanvasElement) (devicePixelRatio : Qc)
  : PointerEventData :=
  let rect := boundingClientRect canvas in
  let dpr := or_one devicePixelRatio in
  {| x := (clientX e - left rect)
          * (canvas_width canvas / rect_width rect) / dpr;
     y := (clientY e - top rect)
          * (canvas_height canvas / rect_height rect) / dpr;
     pressure := ev_pressure e;
     pointerId := ev_pointerId e;
     pointerType := ev_pointerType e;
     isPrimary := ev_isPrimary e;
     buttons := ev_buttons e;
     shiftKey := ev_shiftKey e;
     ctrlKey := ev_ctrlKey e;
     altKey := ev_altKey e;
     metaKey := ev_metaKey e |}.

(* ------------------------------------------------------------------------- *)
(** ** skia-interactive-canvas.tsx *)

Module Interactive.

(** The initial [useState] value. *)
Definition initialInteractionState : InteractionState :=
  {| isHovering := false;
     isPressed := false;
     pointerPosition := None;
     activePointerId := None |}.

(** One [try { surface = canvasKit.MakeSWCanvasSurface(canvas) } catch
    { console.error(...); return null }].  [None] stands for the early
    [return null]; [Some v] for falling through with [surface = v]. *)
Definition software_attempt : M (option (option Surface)) :=
  try_catch
    (canvas <- the_canvas ;;
     v <- call (MakeSWCanvasSurface canvas) ;;
     ret (Some (as_surface v)))
    (console ConsoleError ;; ret None).

(** The first part of [setupSurface], "Clean up existing surface". *)
Definition release_previous : M unit :=
  sref <- read surfaceRef ;;
  match sref with
  | Some s =>
      try_catch (call (SurfaceDelete s) ;; ret tt) (ret tt) ;;
      set_surfaceRef None
  | None => ret tt
  end.

(** The rest of [setupSurface]: the canvas is sized and a surface
    constructed and stored. *)
Definition construct (p : Closure) : M (option Surface) :=
  (* Set canvas dimensions *)
  dpr <- dpr_now ;;
  set_canvas_width (js_mul (width p) dpr) ;;
  set_canvas_height (js_mul (height p) dpr) ;;
  (* Create surface with error handling for WebGL context limits *)
  first <- try_catch
             (canvas <- the_canvas ;;
              v <- call (MakeCanvasSurface canvas) ;;
              ret (Some (as_surface v)))
             (console ConsoleWarn ;; software_attempt) ;;
  match first with
  | None => ret None
  | Some surface =>
      second <- (match surface with
                 | None => software_attempt
                 | Some _ => ret (Some surface)
                 end) ;;
      match second with
      | None => ret None
      | Some None => console ConsoleError ;; ret None
      | Some (Some s) => set_surfaceRef (Some s) ;; ret (Some s)
      end
  end.

Definition setupSurface (p : Closure) : M (option Surface) :=
  cref <- read canvasRef ;;
  if negb (isSome (canvasKit p)) || negb (isSome cref) then ret None else
  release_previous ;;
  construct p.

(** The body of the [try] block of [draw], for the surface in the ref. *)
Definition draw_body (p : Closure) (surface : Surface) : M unit :=
  call (SurfaceGetCanvas surface) ;;
  dpr <- dpr_now ;;
  (* Scale for device pixel ratio *)
  call CanvasSave ;;
  call (CanvasScale dpr dpr) ;;
  (* Call user's draw function with interaction state *)
  call (OnDraw (width p) (height p) (typeface p)
          (Some (interactionState p))) ;;
  call CanvasRestore ;;
  (* Flush to display *)
  call (SurfaceFlush surface) ;;
  ret tt.

Definition draw (p : Closure) : M unit :=
  sref <- read surfaceRef ;;
  match canvasKit p, sref with
  | Some _, Some surface =>
      completed <- try_catch
                     (draw_body p surface ;; ret true)
                     (console ConsoleWarn ;; ret false) ;;
      (* Don't continue animation if draw failed *)
      if completed then
        (* Continue animation loop if enabled *)
        if animate p then
          h <- requestAnimationFrame p ;;
          set_animationFrameRef (Some h)
        else ret tt
      else ret tt
  | _, _ => ret tt
  end.

(** The body of the first [useEffect] ([mounted] is true while it runs). *)
Definition initSurface (p : Closure) : M unit :=
  surface <- setupSurface p ;;
  if isSome surface then draw p else ret tt.

(** The function the first [useEffect] returns. *)
Definition cleanup : M unit :=
  h <- read animationFrameRef ;;
  (match h with
   | Some id => cancelAnimationFrame id ;; set_animationFrameRef None
   | None => ret tt
   end) ;;
  sref <- read surfaceRef ;;
  match sref with
  | Some s =>
      try_catch (call (SurfaceDelete s) ;; ret tt) (ret tt) ;;
      set_surfaceRef None
  | None => ret tt
  end.

(** The second [useEffect]: redraw when not animating. *)
Definition redraw_effect (p : Closure) : M unit :=
  sref <- read surfaceRef ;;
  if isSome sref && negb (animate p) then draw p else ret tt.

(** [redraw] of the imperative handle. *)
Definition redraw (p : Closure) : M unit :=
  sref <- read surfaceRef ;;
  if isSome sref then draw p else ret tt.

(** The browser runs the callback queued under handle [h]. *)
Definition tick (h : positive) : M unit :=
  cb <- take_frame h ;;
  match cb with
  | Some p => draw p
  | None => ret tt
  end.

Definition handlePointerDown (p : Closure) (e : PointerEvent) : M unit :=
  cref <- read canvasRef ;;
  match interactive p, cref with
  | true, Some canvas =>
      d <- read devicePixelRatio ;;
      let normalized := normalizePointerEvent e canvas d in
      setInteractionState (fun prev =>
        {| isHovering := isHovering prev;
           isPressed := true;
           pointerPosition := Some {| px := x normalized; py := y normalized |};
           activePointerId := Some (ev_pointerId e) |}) ;;
      (* Capture pointer for drag operations *)
      call (SetPointerCapture (ev_pointerId e)) ;;
      if onPointerDown p then call (OnPointerDown normalized) ;; ret tt
      else ret tt
  | _, _ => ret tt
  end.

Definition handlePointerMove (p : Closure) (e : PointerEvent) : M unit :=
  cref <- read canvasRef ;;
  match interactive p, cref with
  | true, Some canvas =>
      d <- read devicePixelRatio ;;
      let normalized := normalizePointerEvent e canvas d in
      setInteractionState (fun prev =>
        {| isHovering := true;
           isPressed := isPressed prev;
           pointerPosition := Some {| px := x normalized; py := y normalized |};
           activePointerId := activePointerId prev |}) ;;
      if onPointerMove p then call (OnPointerMove normalized) ;; ret tt
      else ret tt
  | _, _ => ret tt
  end.

(** Also the handler of [onPointerCancel]. *)
Definition handlePointerUp (p : Closure) (e : PointerEvent) : M unit :=
  cref <- read canvasRef ;;
  match interactive p, cref with
  | true, Some canvas =>
      d <- read devicePixelRatio ;;
      let normalized := normalizePointerEvent e canvas d in
      setInteractionState (fun prev =>
        {| isHovering := isHovering prev;
           isPressed := false;
           pointerPosition := pointerPosition prev;
           activePointerId := None |}) ;;
      (* Release pointer capture *)
      captured <- call (HasPointerCapture (ev_pointerId e)) ;;
      (if truthy captured
       then call (ReleasePointerCapture (ev_pointerId e)) ;; ret tt
       else ret tt) ;;
      if onPointerUp p then call (OnPointerUp normalized) ;; ret tt
      else ret tt
  | _, _ => ret tt
  end.

Definition handlePointerLeave (p : Closure) : M unit :=
  if negb (interactive p) then ret tt else
  setInteractionState (fun prev =>
    {| isHovering := false;
       isPressed := isPressed prev;
       pointerPosition := None;
       activePointerId := activePointerId prev |}) ;;
  if onPointerLeave p then call OnPointerLeave ;; ret tt
  else ret tt.

End Interactive.

(* ------------------------------------------------------------------------- *)
(** ** skia-canvas.tsx *)

Module Plain.

(** The first part of [setupSurface], "Clean up existing surface". *)
Definition release_previous : M unit :=
  sref <- read surfaceRef ;;
  match sref with
  | Some s => call (SurfaceDelete s) ;; set_surfaceRef None
  | None => ret tt
  end.

(** The rest of [setupSurface]: the canvas is sized and a surface
    constructed and stored. *)
Definition construct (p : Closure) : M (option Surface) :=
  (* Set canvas dimensions *)
  dpr <- dpr_now ;;
  set_canvas_width (js_mul (width p) dpr) ;;
  set_canvas_height (js_mul (height p) dpr) ;;
  (* Create surface *)
  canvas <- the_canvas ;;
  v <- call (MakeCanvasSurface canvas) ;;
  match as_surface v with
  | None => console ConsoleError ;; ret None
  | Some s => set_surfaceRef (Some s) ;; ret (Some s)
  end.

Definition setupSurface (p : Closure) : M (option Surface) :=
  cref <- read canvasRef ;;
  if negb (isSome (canvasKit p)) || negb (isSome cref) then ret None else
  release_previous ;;
  construct p.

Definition draw (p : Closure) : M unit :=
  sref <- read surfaceRef ;;
  match canvasKit p, sref with
  | Some _, Some surface =>
      call (SurfaceGetCanvas surface) ;;
      dpr <- dpr_now ;;
      (* Scale for device pixel ratio *)
      call CanvasSave ;;
      call (CanvasScale dpr dpr) ;;
      (* Call user's draw function with typeface *)
      call (OnDraw (width p) (height p) (typeface p) None) ;;
      call CanvasRestore ;;
      (* Flush to display *)
      call (SurfaceFlush surface) ;;
      (* Continue animation loop if enabled *)
      if animate p then
        h <- requestAnimationFrame p ;;
        set_animationFrameRef (Some h)
      else ret tt
  | _, _ => ret tt
  end.

(** The body of the first [useEffect]. *)
Definition initSurface (p : Closure) : M unit :=
  surface <- setupSurface p ;;
  if isSome surface then draw p else ret tt.

(** The function the first [useEffect] returns. *)
Definition cleanup : M unit :=
  h <- read animationFrameRef ;;
  (match h with
   | Some id => cancelAnimationFrame id ;; set_animationFrameRef None
   | None => ret tt
   end) ;;
  sref <- read surfaceRef ;;
  match sref with
  | Some s => call (SurfaceDelete s) ;; set_surfaceRef None
  | None => ret tt
  end.

(** The second [useEffect]: redraw when not animating. *)
Definition redraw_effect (p : Closure) : M unit :=
  sref <- read surfaceRef ;;
  if isSome sref && negb (animate p) then draw p else ret tt.

Definition tick (h : positive) : M unit :=
  cb <- take_frame h ;;
  match cb with
  | Some p => draw p
  | None => ret tt
  end.

End Plain.

(* ------------------------------------------------------------------------- *)
(** ** The two components side by side *)

Inductive Variant := SkiaCanvas | SkiaInteractiveCanvas.

Definition setupSurface (v : Variant) : Closure -> M (option Surface) :=
  match v with
  | SkiaCanvas => Plain.setupSurface
  | SkiaInteractiveCanvas => Interactive.setupSurface
  end.

Definition release_previous (v : Variant) : M unit :=
  match v with
  | SkiaCanvas => Plain.release_previous
  | SkiaInteractiveCanvas => Interactive.release_previous
  end.

Definition construct (v : Variant) : Closure -> M (option Surface) :=
  match v with
  | SkiaCanvas => Plain.construct
  | SkiaInteractiveCanvas => Interactive.construct
  end.

Definition draw (v : Variant) : Closure -> M unit :=
  match v with
  | SkiaCanvas => Plain.draw
  | SkiaInteractiveCanvas => Interactive.draw
  end.

Definition cleanup (v : Variant) : M unit :=
  match v with
  | SkiaCanvas => Plain.cleanup
  | SkiaInteractiveCanvas => Interactive.cleanup
  end.

Definition tick (v : Variant) : positive -> M unit :=
  match v with
  | SkiaCanvas => Plain.tick
  | SkiaInteractiveCanvas => Interactive.tick
  end.

(** Running an operation for its effect on the world, whether it returns or
    raises, and a sequence of them in order. *)
Definition exec {A} (m : M A) (w : World) : World := snd (m w).

Definition raises {A} (m : M A) (w : World) : bool :=
  match fst (m w) with
  | Ok _ => false
  | Threw => true
  end.

Fixpoint exec_all {A} (ms : list (M A)) (w : World) : World :=
  match ms with
  | [] => w
  | m :: rest => exec_all rest (exec m w)
  end.

(* ------------------------------------------------------------------------- *)
(** ** Reading the log *)

(** The events an operation added: the log only grows at its head. *)
Definition since (t0 t : list Event) : list Event :=
  firstn (length t - length t0) t.

Definition new_events (before after : World) : list Event :=
  since (trace before) (trace after).

Definition is_MakeCanvasSurface (c : Call) : bool :=
  match c with MakeCanvasSurface _ => true | _ => false end.

Definition is_MakeSWCanvasSurface (c : Call) : bool :=
  match c with MakeSWCanvasSurface _ => true | _ => false end.

Definition is_OnDraw (c : Call) : bool :=
  match c with OnDraw _ _ _ _ => true | _ => false end.

Definition count_calls (f : Call -> bool) (t : list Event) : nat :=
  length (filter (fun e => f (fst e)) t).

Fixpoint remove_one (s : Surface) (l : list Surface) : list Surface :=
  match l with
  | [] => []
  | s' :: l' => if Nat.eqb s s' then l' else s' :: remove_one s l'
  end.

(** The surfaces the component holds according to the log: those a
    construction call handed to it and on which it has not called [delete]
    since.  A [delete] that raises counts as well: it raises because the
    handle was already invalid, so the surface is gone either way.  The log
    is newest first, so the tail is accounted for first. *)
Fixpoint held (t : list Event) : list Surface :=
  match t with
  | [] => []
  | (MakeCanvasSurface _, Value (VSurface s)) :: t' => s :: held t'
  | (MakeSWCanvasSurface _, Value (VSurface s)) :: t' => s :: held t'
  | (SurfaceDelete s, _) :: t' => remove_one s (held t')
  | _ :: t' => held t'
  end.

(** The registry agrees with the log: nothing is held, or exactly the
    surface in [surfaceRef]. *)
Definition single_live (w : World) : Prop :=
  held (trace w) = [] \/
  exists s, held (trace w) = [s] /\ surfaceRef w = Some s.

(** [isPressed] is true exactly when a pointer id is recorded. *)
Definition pressed_iff_active (st : InteractionState) : Prop :=
  isPressed st = true <-> activePointerId st <> None.

(** The pointer events a canvas receives, and their handlers
    ([onPointerCancel] is wired to [handlePointerUp]). *)
Inductive PointerInput :=
| PointerDown (e : PointerEvent)
| PointerMove (e : PointerEvent)
| PointerUp (e : PointerEvent)
| PointerCancel (e : PointerEvent)
| PointerLeave.

Definition handle (p : Closure) (i : PointerInput) : M unit :=
  match i with
  | PointerDown e => Interactive.handlePointerDown p e
  | PointerMove e => Interactive.handlePointerMove p e
  | PointerUp e => Interactive.handlePointerUp p e
  | PointerCancel e => Interactive.handlePointerUp p e
  | PointerLeave => Interactive.handlePointerLeave p
  end.

Definition is_construction (c : Call) : bool :=
  is_MakeCanvasSurface c || is_MakeSWCanvasSurface c.

(** At every construction call in the log, nothing was held: whatever was
    held before had been given back through [delete]. *)
Fixpoint built_on_empty (t : list Event) : Prop :=
  match t with
  | [] => True
  | (c, _) :: t' =>
      (is_construction c = true -> held t' = []) /\ built_on_empty t'
  end.

(** The registry and the log agree exactly: what is held is what
    [surfaceRef] holds, nothing when it is null. *)
Definition ref_matches_held (w : World) : Prop :=
  held (trace w) = match surfaceRef w with
                   | Some s => [s]
                   | None => []
                   end.

(** The registry and the log agree, and every construction so far started
    with nothing held. *)
Definition surfaces_accounted (w : World) : Prop :=
  single_live w /\ built_on_empty (trace w).

(** The paint body of [draw] raises, with surface [s] bound: in the
    interactive canvas the body is the [try] block; in the plain canvas
    nothing after the body can raise, so it is [draw] itself raising. *)
Definition paint_fails (v : Variant) (p : Closure) (s : Surface) (w : World)
  : Prop :=
  match v with
  | SkiaInteractiveCanvas => fst (Interactive.draw_body p s w) = Threw
  | SkiaCanvas => fst (Plain.draw p w) = Threw
  end.

(** At most one frame is queued, and it is the one [animationFrameRef]
    remembers. *)
Definition one_frame (w : World) : Prop :=
  pending w = [] \/
  exists h p, pending w = [(h, p)] /\ animationFrameRef w = Some h.

(* ------------------------------------------------------------------------- *)
(** ** The life of a mounted component *)

(** The window moves to a screen of another pixel ratio. *)
Definition set_devicePixelRatio (d : Qc) : M unit :=
  fun w => (Ok tt,
    {| canvasRef := canvasRef w; surfaceRef := surfaceRef w;
       animationFrameRef := animationFrameRef w; state := state w;
       devicePixelRatio := d; pending := pending w;
       next_handle := next_handle w; trace := trace w;
       respond := respond w |}).

Definition initSurface (v : Variant) : Closure -> M unit :=
  match v with
  | SkiaCanvas => Plain.initSurface
  | SkiaInteractiveCanvas => Interactive.initSurface
  end.

Definition redraw_effect (v : Variant) : Closure -> M unit :=
  match v with
  | SkiaCanvas => Plain.redraw_effect
  | SkiaInteractiveCanvas => Interactive.redraw_effect
  end.

(** What React, the browser and the user of the component can make it do.
    [OpRender p] is a render whose [setupSurface] or [draw] changed: React
    runs the cleanup of the previous first effect, then both effects.
    [OpRepaint p] is a render in which only the second effect runs.
    [OpRedraw p] is [ref.current.redraw()], which only the interactive canvas
    offers; pointer inputs reach only the interactive canvas as well. *)
Inductive Op :=
| OpSetupSurface (p : Closure)
| OpDraw (p : Closure)
| OpMount (p : Closure)
| OpRender (p : Closure)
| OpRepaint (p : Closure)
| OpUnmount
| OpFrame (h : positive)
| OpRedraw (p : Closure)
| OpPointer (p : Closure) (i : PointerInput)
| OpScreen (d : Qc)
| OpCanvas (c : option HTMLCanvasElement).

Definition step (v : Variant) (o : Op) : M unit :=
  match o with
  | OpSetupSurface p => setupSurface v p ;; ret tt
  | OpDraw p => draw v p
  | OpMount p => initSurface v p ;; redraw_effect v p
  | OpRender p => cleanup v ;; initSurface v p ;; redraw_effect v p
  | OpRepaint p => redraw_effect v p
  | OpUnmount => cleanup v
  | OpFrame h => tick v h
  | OpRedraw p =>
      match v with
      | SkiaInteractiveCanvas => Interactive.redraw p
      | SkiaCanvas => ret tt
      end
  | OpPointer p i =>
      match v with
      | SkiaInteractiveCanvas => handle p i
      | SkiaCanvas => ret tt
      end
  | OpScreen d => set_devicePixelRatio d
  | OpCanvas c => set_canvasRef c
  end.

Definition run (v : Variant) (ops : list Op) : World -> World :=
  exec_all (map (step v) ops).

(** The operations React and the browser start on their own; [OpMount] is
    the first of a life and does not occur again. *)
Definition self_driven (o : Op) : bool :=
  match o with
  | OpSetupSurface _ | OpRender _ | OpRepaint _ | OpUnmount | OpFrame _
  | OpPointer _ _ | OpScreen _ | OpCanvas _ => true
  | OpDraw _ | OpMount _ | OpRedraw _ => false
  end.

(* ------------------------------------------------------------------------- *)
(** ** Concrete worlds, used to run the code *)

Module Sample.

Definition rect0 : DOMRect :=
  {| left := num 20; top := num 10;
     rect_width := num 400; rect_height := num 300 |}.

(** A freshly mounted 300x150 canvas element laid out at 400x300. *)
Definition element : HTMLCanvasElement :=
  {| canvas_width := num 300; canvas_height := num 150;
     boundingClientRect := rect0 |}.

(** The state of a component right after its first render, before the first
    effect ran, in a window of pixel ratio [d] answering by [r]. *)
Definition mounted (d : Qc) (r : list Event -> Call -> Reply) : World :=
  {| canvasRef := Some element;
     surfaceRef := None;
     animationFrameRef := None;
     state := Interactive.initialInteractionState;
     devicePixelRatio := d;
     pending := [];
     next_handle := 1%positive;
     trace := [];
     respond := r |}.

Definition props (w h : Qc) (anim : bool) : Closure :=
  {| canvasKit := Some TheCanvasKit;
     typeface := None;
     width := w;
     height := h;
     animate := anim;
     interactive := true;
     interactionState := Interactive.initialInteractionState;
     onPointerDown := true;
     onPointerMove := true;
     onPointerUp := true;
     onPointerLeave := true |}.

(** An engine in good health: the n-th construction returns surface n. *)
Definition healthy (t : list Event) (c : Call) : Reply :=
  match c with
  | MakeCanvasSurface _ | MakeSWCanvasSurface _ =>
      Value (VSurface (S (length t)))
  | HasPointerCapture _ => Value (VBool true)
  | _ => Value VUndefined
  end.

(** The WebGL context budget is exhausted: hardware construction raises,
    software construction works. *)
Definition no_webgl (t : list Event) (c : Call) : Reply :=
  match c with
  | MakeCanvasSurface _ => Raise
  | MakeSWCanvasSurface _ => Value (VSurface (S (length t)))
  | _ => Value VUndefined
  end.

(** Hardware construction raises and software construction returns null. *)
Definition no_webgl_null_software (t : list Event) (c : Call) : Reply :=
  match c with
  | MakeCanvasSurface _ => Raise
  | MakeSWCanvasSurface _ => Value VNull
  | _ => Value VUndefined
  end.

(** Hardware construction returns null without raising. *)
Definition null_hardware (t : list Event) (c : Call) : Reply :=
  match c with
  | MakeCanvasSurface _ => Value VNull
  | MakeSWCanvasSurface _ => Value (VSurface (S (length t)))
  | _ => Value VUndefined
  end.

(** The caller's draw callback raises. *)
Definition failing_callback (t : list Event) (c : Call) : Reply :=
  match c with
  | MakeCanvasSurface _ | MakeSWCanvasSurface _ =>
      Value (VSurface (S (length t)))
  | OnDraw _ _ _ _ => Raise
  | _ => Value VUndefined
  end.

(** The context was lost behind the component's back: every method of a
    surface already handed out raises. *)
Definition context_lost (t : list Event) (c : Call) : Reply :=
  match c with
  | MakeCanvasSurface _ | MakeSWCanvasSurface _ =>
      Value (VSurface (S (length t)))
  | SurfaceDelete _ | SurfaceGetCanvas _ | SurfaceFlush _ => Raise
  | _ => Value VUndefined
  end.

(** A world in which surface [s] is bound and frame [h] is queued for [p]. *)
Definition looping (s : Surface) (h : positive) (p : Closure)
  (r : list Event -> Call -> Reply) : World :=
  {| canvasRef := Some element;
     surfaceRef := Some s;
     animationFrameRef := Some h;
     state := Interactive.initialInteractionState;
     devicePixelRatio := num 2;
     pending := [(h, p)];
     next_handle := Pos.succ h;
     trace := [(MakeCanvasSurface element, Value (VSurface s))];
     respond := r |}.

Definition pointer (cx cy : Qc) (id : Z) : PointerEvent :=
  {| clientX := cx; clientY := cy;
     ev_pressure := num 1;
     ev_pointerId := id;
     ev_pointerType := mouse;
     ev_isPrimary := true;
     ev_buttons := 1%Z;
     ev_shiftKey := false; ev_ctrlKey := false;
     ev_altKey := false; ev_metaKey := false |}.

(** A canvas laid out at [w] by [h] at (20, 10) whose buffer was sized at
    pixel ratio 2, and a mounted component around it. *)
Definition hidpi_element (w h : Qc) : HTMLCanvasElement :=
  {| canvas_width := num 2 * w; canvas_height := num 2 * h;
     boundingClientRect :=
       {| left := num 20; top := num 10;
          rect_width := w; rect_height := h |} |}.

Definition hidpi (w h : Qc) (r : list Event -> Call -> Reply) : World :=
  {| canvasRef := Some (hidpi_element w h);
     surfaceRef := None;
     animationFrameRef := None;
     state := Interactive.initialInteractionState;
     devicePixelRatio := num 2;
     pending := [];
     next_handle := 1%positive;
     trace := [];
     respond := r |}.

(** A 101x75 canvas in a window of pixel ratio 1.5. *)
Definition odd_props : Closure := props (num 101) (num 75) false.

Definition fractional : World := mounted (Q2Qc (3 # 2)) healthy.

(** The double 0.7. *)
Definition seven_tenths : Qc :=
  Q2Qc (3152519739159347 # 4503599627370496).

End Sample.

(** The scenario of the pointer test: a press at client (120, 80) on a
    canvas whose box starts at (20, 10), is [w] by [h] CSS pixels, and whose
    buffer was sized at pixel ratio 2. *)
Definition press_scenario (w h : Qc) (e : PointerEvent)
  (canvas : HTMLCanvasElement) : Prop :=
  clientX e = num 120 /\ clientY e = num 80 /\
  left (boundingClientRect canvas) = num 20 /\
  top (boundingClientRect canvas) = num 10 /\
  rect_width (boundingClientRect canvas) = w /\
  rect_height (boundingClientRect canvas) = h /\
  canvas_width canvas = num 2 * w /\
  canvas_height canvas = num 2 * h.

(* ------------------------------------------------------------------------- *)
(** ** Comparisons of rationals *)

(** [a <= b] and [a < b] on rationals. *)
Definition num_leb (a b : Qc) : bool := Qle_bool a b.

Definition num_ltb (a b : Qc) : bool := negb (Qle_bool b a).

(* ------------------------------------------------------------------------- *)
(** ** utils/geometry.ts: what the hit tests and the sliders call *)

Module Geometry.

Record Bounds := {
  bounds_x : Qc;
  bounds_y : Qc;
  bounds_width : Qc;
  bounds_height : Qc
}.

Record Circle := {
  cx : Qc;
  cy : Qc;
  radius : Qc
}.

Definition distanceSquared (p1 p2 : Point) : Qc :=
  let dx := px p2 - px p1 in
  let dy := py p2 - py p1 in
  dx * dx + dy * dy.

(** [clamp] is handed the quotients and sums of the sliders, which can be
    [NaN]: it is read on doubles. *)
Definition clamp (value min max : Double.number) : Double.number :=
  Double.min (Double.max value min) max.

Definition pointInBounds (p : Point) (bounds : Bounds) : bool :=
  num_leb (bounds_x bounds) (px p) &&
  num_leb (px p) (bounds_x bounds + bounds_width bounds) &&
  num_leb (bounds_y bounds) (py p) &&
  num_leb (py p) (bounds_y bounds + bounds_height bounds).

Definition pointInCircle (p : Point) (circle : Circle) : bool :=
  num_leb (distanceSquared p {| px := cx circle; py := cy circle |})
          (radius circle * radius circle).

(** The test of one edge, from vertex [vj] to vertex [vi]:
    [yi > p.y !== yj > p.y && p.x < (xj - xi) * (p.y - yi) / (yj - yi) + xi].
    The right operand is only evaluated when the left one holds, and then
    [yj - yi] is not zero; here both are evaluated, and the value of the
    right one does not matter when the left one is false. *)
Definition edge_crosses (p vi vj : Point) : bool :=
  negb (Bool.eqb (num_ltb (py p) (py vi)) (num_ltb (py p) (py vj))) &&
  num_ltb (px p)
    ((px vj - px vi) * (py p - py vi) / (py vj - py vi) + px vi).

(** The loop [for (let i = 0, j = polygon.length - 1; i < polygon.length;
    j = i++)], with [remaining] iterations to go.  Both indices are in range
    whenever the body runs, so the default of [nth] is never read. *)
Fixpoint polygon_loop (p : Point) (polygon : list Point)
  (remaining i j : nat) (inside : bool) : bool :=
  match remaining with
  | O => inside
  | S remaining' =>
      let origin := {| px := num 0; py := num 0 |} in
      let inside' :=
        if edge_crosses p (nth i polygon origin) (nth j polygon origin)
        then negb inside else inside in
      polygon_loop p polygon remaining' (S i) i inside'
  end.

Definition pointInPolygon (p : Point) (polygon : list Point) : bool :=
  polygon_loop p polygon (length polygon) 0 (length polygon - 1) false.

End Geometry.

(* ------------------------------------------------------------------------- *)
(** ** utils/math.ts: what the sliders call *)

Module MathUtil.

Definition roundToStep (value step : Double.number) : Double.number :=
  if Double.eqb step (Double.of_Z 0) then value
  else Double.mul (Double.round (Double.div value step)) step.

End MathUtil.

(* ------------------------------------------------------------------------- *)
(** ** utils/interaction.ts: hit tests, drag state, keyboard *)

Module Hit.

(** [HitTestResult<T>]: [{ hit: false }] leaves index and data undefined. *)
Record HitTestResult (T : Type) := {
  hit : bool;
  index : option nat;
  data : option T
}.
Arguments hit {T}.
Arguments index {T}.
Arguments data {T}.

Definition HitTestFunction (T : Type) : Type := Qc -> Qc -> HitTestResult T.

Definition miss {T} : HitTestResult T :=
  {| hit := false; index := None; data := None |}.

(** The loop the three constructors share: the first item, from index [i]
    on, that contains the point. *)
Fixpoint scan {A T} (inside : A -> bool) (dataOf : A -> option T)
  (items : list A) (i : nat) : HitTestResult T :=
  match items with
  | [] => miss
  | item :: rest =>
      if inside item
      then {| hit := true; index := Some i; data := dataOf item |}
      else scan inside dataOf rest (S i)
  end.

Definition createRectHitTest {T}
  (rects : list (Geometry.Bounds * option T)) : HitTestFunction T :=
  fun x y =>
    let point := {| px := x; py := y |} in
    scan (fun r => Geometry.pointInBounds point (fst r)) snd rects 0.

Definition createCircleHitTest {T}
  (circles : list (Geometry.Circle * option T)) : HitTestFunction T :=
  fun x y =>
    let point := {| px := x; py := y |} in
    scan (fun c => Geometry.pointInCircle point (fst c)) snd circles 0.

Definition createPolygonHitTest {T}
  (polygons : list (list Point * option T)) : HitTestFunction T :=
  fun x y =>
    let point := {| px := x; py := y |} in
    scan (fun g => Geometry.pointInPolygon point (fst g)) snd polygons 0.

(** [combineHitTests(...hitTests)]: first match wins. *)
Fixpoint combineHitTests {T} (hitTests : list (HitTestFunction T))
  : HitTestFunction T :=
  fun x y =>
    match hitTests with
    | [] => miss
    | hitTest :: rest =>
        let result := hitTest x y in
        if hit result then result else combineHitTests rest x y
    end.

End Hit.

Module Drag.

(** The points of a drag are whatever numbers the caller passes. *)
Record Point := {
  x : Double.number;
  y : Double.number
}.

Record DragState := {
  isDragging : bool;
  startPoint : option Point;
  currentPoint : option Point;
  delta : Point;
  totalDelta : Point
}.

Definition zero : Point := {| x := Double.of_Z 0; y := Double.of_Z 0 |}.

Definition createInitialDragState : DragState :=
  {| isDragging := false;
     startPoint := None;
     currentPoint := None;
     delta := zero;
     totalDelta := zero |}.

Definition startDrag (_state : DragState) (point : Point) : DragState :=
  {| isDragging := true;
     startPoint := Some point;
     currentPoint := Some point;
     delta := zero;
     totalDelta := zero |}.

Definition updateDrag (state : DragState) (point : Point) : DragState :=
  match isDragging state, currentPoint state, startPoint state with
  | true, Some current, Some start =>
      {| isDragging := isDragging state;
         startPoint := startPoint state;
         currentPoint := Some point;
         delta := {| x := Double.sub (x point) (x current);
                     y := Double.sub (y point) (y current) |};
         totalDelta := {| x := Double.sub (x point) (x start);
                          y := Double.sub (y point) (y start) |} |}
  | _, _, _ => state
  end.

Definition endDrag (state : DragState) : DragState :=
  {| isDragging := false;
     startPoint := startPoint state;
     currentPoint := currentPoint state;
     delta := zero;
     totalDelta := totalDelta state |}.

End Drag.

Module Keys.

Import Stdlib.Strings.String.
Local Open Scope string_scope.

Inductive Direction := up | down | left | right.

Inductive Orientation := horizontal | vertical.

Definition keyToDirection (key : string) : option Direction :=
  if String.eqb key "ArrowUp" then Some up
  else if String.eqb key "ArrowDown" then Some down
  else if String.eqb key "ArrowLeft" then Some left
  else if String.eqb key "ArrowRight" then Some right
  else None.

Definition is_right_or_up (direction : Direction) : bool :=
  match direction with
  | right | up => true
  | _ => false
  end.

Definition is_up_or_right (direction : Direction) : bool :=
  match direction with
  | up | right => true
  | _ => false
  end.

Definition directionToValue (direction : Direction)
  (orientation : Orientation) : Qc :=
  match orientation with
  | horizontal => if is_right_or_up direction then num 1 else num (-1)
  | vertical => if is_up_or_right direction then num 1 else num (-1)
  end.

(** [e.key === name], and the names the widgets compare with. *)
Definition key_is (key name : string) : bool := String.eqb key name.

Definition Home : string := "Home".
Definition End_ : string := "End".
Definition Tab : string := "Tab".
Definition ArrowUp : string := "ArrowUp".
Definition ArrowDown : string := "ArrowDown".
Definition ArrowLeft : string := "ArrowLeft".
Definition ArrowRight : string := "ArrowRight".

End Keys.

(* ------------------------------------------------------------------------- *)
(** ** skia-canvas.tsx: [useSkiaRedraw] *)

Module Redraw.

(** A callback is known by its identity.  The registry is a JavaScript
    [Set]: its entries in insertion order, no value twice; [delete] leaves
    an empty slot where the value was, which is how a pass of [forEach]
    that is under way keeps its place. *)
Definition Callback := nat.

Definition SetData := list (option Callback).

Definition is_entry (cb : Callback) (e : option Callback) : bool :=
  match e with
  | Some c => Nat.eqb cb c
  | None => false
  end.

Definition set_has (cb : Callback) (s : SetData) : bool :=
  existsb (is_entry cb) s.

(** [Set.prototype.add] and [Set.prototype.delete]. *)
Definition set_add (cb : Callback) (s : SetData) : SetData :=
  if set_has cb s then s else s ++ [Some cb].

Fixpoint set_delete (cb : Callback) (s : SetData) : SetData :=
  match s with
  | [] => []
  | e :: rest =>
      if is_entry cb e then None :: rest else e :: set_delete cb rest
  end.

(** [registerRedraw(callback)] adds the callback; the function it returns
    deletes that callback. *)
Definition registerRedraw (cb : Callback) (s : SetData) : SetData :=
  set_add cb s.

Definition unregister (cb : Callback) (s : SetData) : SetData :=
  set_delete cb s.

Inductive Action :=
| Register (cb : Callback)
| Unregister (cb : Callback).

Definition act (s : SetData) (a : Action) : SetData :=
  match a with
  | Register cb => registerRedraw cb s
  | Unregister cb => unregister cb s
  end.

(** What a callback does when it is called, which this repository does not
    decide: the registrations and unregistrations it makes while it runs,
    and whether it ends by raising. *)
Record Outcome := {
  does : list Action;
  throws : bool
}.

(** The state of a pass of [forEach]: the set, the callbacks invoked so far
    (oldest first), and whether a callback raised, which ends the pass and
    is the exception [triggerRedraw] raises. *)
Record Pass := {
  entries : SetData;
  invoked : list Callback;
  raised : bool
}.

(** [redrawCallbacks.current.forEach((cb) => cb())] from slot [index] on:
    empty slots are skipped, entries added during the pass are reached, and
    the pass ends at the end of the list or at the first callback that
    raises.  The answer of a callback may depend on the callbacks invoked
    before it.  A pass need not end (a callback may register another one
    every time); [None] is a pass still under way after [fuel] slots. *)
Fixpoint forEach (fuel : nat)
  (behaviour : list Callback -> Callback -> Outcome)
  (s : SetData) (index : nat) (sofar : list Callback) : option Pass :=
  match fuel with
  | O => None
  | S fuel' =>
      match nth_error s index with
      | None => Some {| entries := s; invoked := sofar; raised := false |}
      | Some None => forEach fuel' behaviour s (S index) sofar
      | Some (Some cb) =>
          let outcome := behaviour sofar cb in
          let s' := fold_left act (does outcome) s in
          if throws outcome
          then Some {| entries := s'; invoked := sofar ++ [cb];
                       raised := true |}
          else forEach fuel' behaviour s' (S index) (sofar ++ [cb])
      end
  end.

Definition triggerRedraw (fuel : nat)
  (behaviour : list Callback -> Callback -> Outcome) (s : SetData)
  : option Pass :=
  forEach fuel behaviour s 0 [].

End Redraw.

(* ------------------------------------------------------------------------- *)
(** ** widgets/skia-slider.tsx *)

(** The numbers of a slider are doubles: [NaN] and rounding decide what it
    reports. *)
Module Slider.

(** An optional callback prop is absent, or present; what a present
    callback does is not decided by the slider: all that matters to it is
    whether the call with a given value raises ([true]) or returns. *)
Record Props := {
  value : Double.number;
  min : Double.number;
  max : Double.number;
  step : Double.number;
  width : Double.number;
  height : Double.number;
  thumbRadius : Double.number;
  orientation : Keys.Orientation;
  disabled : bool;
  onChange : option (Double.number -> bool);
  onChangeEnd : option (Double.number -> bool)
}.

Definition isHorizontal (p : Props) : bool :=
  match orientation p with
  | Keys.horizontal => true
  | Keys.vertical => false
  end.

Definition getValueFromPosition (p : Props) (x y : Double.number)
  : Double.number :=
  let percent :=
    if isHorizontal p
    then Double.div (Double.sub x (thumbRadius p))
           (Double.sub (width p) (Double.mul (thumbRadius p) (Double.of_Z 2)))
    else Double.sub (Double.of_Z 1)
           (Double.div (Double.sub y (thumbRadius p))
              (Double.sub (height p)
                 (Double.mul (thumbRadius p) (Double.of_Z 2)))) in
  let percent := Geometry.clamp percent (Double.of_Z 0) (Double.of_Z 1) in
  let rawValue :=
    Double.add (min p) (Double.mul percent (Double.sub (max p) (min p))) in
  MathUtil.roundToStep rawValue (step p).

(** [isDragging] and [hoverValue] are state cells, [lastValueRef] a ref; a
    handler reads the cells as its render saw them. *)
Record State := {
  isDragging : bool;
  hoverValue : option Double.number;
  lastValueRef : Double.number
}.

Inductive Emitted :=
| PreventDefault
| Change (v : Double.number)
| ChangeEnd (v : Double.number).

(** [callback?.(v)]: the call made, if any, and whether it raised. *)
Definition invoke (callback : option (Double.number -> bool))
  (e : Double.number -> Emitted) (v : Double.number)
  : list Emitted * bool :=
  match callback with
  | Some raises_on => ([e v], raises_on v)
  | None => ([], false)
  end.

(** [onChange?.(v); onChangeEnd?.(v)]: the second call is not reached when
    the first one raises. *)
Definition invoke_both (p : Props) (v : Double.number) : list Emitted :=
  let (called, raised) := invoke (onChange p) Change v in
  if raised then called
  else called ++ fst (invoke (onChangeEnd p) ChangeEnd v).

(** The pointer handlers read [e.x] and [e.y] of the event.  The call of
    the callback is their last statement: whether it raises changes
    neither the state nor the calls made. *)
Definition handlePointerDown (p : Props) (st : State) (x y : Double.number)
  : State * list Emitted :=
  if disabled p then (st, []) else
  let newValue := getValueFromPosition p x y in
  if negb (Double.eqb newValue (lastValueRef st))
  then ({| isDragging := true; hoverValue := hoverValue st;
           lastValueRef := newValue |},
        fst (invoke (onChange p) Change newValue))
  else ({| isDragging := true; hoverValue := hoverValue st;
           lastValueRef := lastValueRef st |}, []).

Definition handlePointerMove (p : Props) (st : State) (x y : Double.number)
  : State * list Emitted :=
  if disabled p then (st, []) else
  let newValue := getValueFromPosition p x y in
  if isDragging st && negb (Double.eqb newValue (lastValueRef st))
  then ({| isDragging := isDragging st; hoverValue := Some newValue;
           lastValueRef := newValue |},
        fst (invoke (onChange p) Change newValue))
  else ({| isDragging := isDragging st; hoverValue := Some newValue;
           lastValueRef := lastValueRef st |}, []).

Definition handlePointerUp (p : Props) (st : State) : State * list Emitted :=
  if isDragging st
  then ({| isDragging := false; hoverValue := hoverValue st;
           lastValueRef := lastValueRef st |},
        fst (invoke (onChangeEnd p) ChangeEnd (lastValueRef st)))
  else (st, []).

Definition handlePointerLeave (st : State) : State * list Emitted :=
  ({| isDragging := isDragging st; hoverValue := None;
      lastValueRef := lastValueRef st |}, []).

Definition handleKeyDown (p : Props) (key : String.string) : list Emitted :=
  if disabled p then [] else
  match Keys.keyToDirection key with
  | Some direction =>
      let delta :=
        Double.mul (to_double (Keys.directionToValue direction (orientation p)))
          (step p) in
      let newValue :=
        Geometry.clamp (Double.add (value p) delta) (min p) (max p) in
      PreventDefault ::
      (if negb (Double.eqb newValue (value p))
       then invoke_both p newValue
       else [])
  | None =>
      if Keys.key_is key Keys.Home then
        PreventDefault :: invoke_both p (min p)
      else if Keys.key_is key Keys.End_ then
        PreventDefault :: invoke_both p (max p)
      else []
  end.

(** The pointer events the canvas passes on, in the order they arrive. *)
Inductive Input :=
| Down (x y : Double.number)
| Move (x y : Double.number)
| Up
| Leave.

Definition handle (p : Props) (st : State) (i : Input)
  : State * list Emitted :=
  match i with
  | Down x y => handlePointerDown p st x y
  | Move x y => handlePointerMove p st x y
  | Up => handlePointerUp p st
  | Leave => handlePointerLeave st
  end.

Fixpoint handle_all (p : Props) (st : State) (inputs : list Input)
  : State * list Emitted :=
  match inputs with
  | [] => (st, [])
  | i :: rest =>
      let (st1, out1) := handle p st i in
      let (st2, out2) := handle_all p st1 rest in
      (st2, out1 ++ out2)
  end.



End Slider.

(* ------------------------------------------------------------------------- *)
(** ** What the further properties are stated with *)

Definition is_ReleasePointerCapture (c : Call) : bool :=
  match c with ReleasePointerCapture _ => true | _ => false end.

(** What "first match wins" means for a result [r] over [items]: either [r]
    names an index, the item there contains the point, carries the data
    returned, and no earlier item contains the point; or [r] is a miss and no
    item contains the point. *)
Definition first_match {A T} (inside : A -> bool)
  (items : list (A * option T)) (r : Hit.HitTestResult T) : Prop :=
  match Hit.index r with
  | Some i =>
      Hit.hit r = true /\
      (exists a, nth_error items i = Some (a, Hit.data r) /\
                 inside a = true) /\
      (forall j a d, (j < i)%nat -> nth_error items j = Some (a, d) ->
                     inside a = false)
  | None =>
      Hit.hit r = false /\ Hit.data r = None /\
      (forall a d, In (a, d) items -> inside a = false)
  end.

(** The four corners of a rectangle, as a polygon. *)
Definition corners (b : Geometry.Bounds) : list Point :=
  let x0 := Geometry.bounds_x b in
  let y0 := Geometry.bounds_y b in
  let x1 := Geometry.bounds_x b + Geometry.bounds_width b in
  let y1 := Geometry.bounds_y b + Geometry.bounds_height b in
  [ {| px := x0; py := y0 |}; {| px := x1; py := y0 |};
    {| px := x1; py := y1 |}; {| px := x0; py := y1 |} ].

(** The difference of two points of a drag, coordinate by coordinate. *)
Definition minus (a b : Drag.Point) : Drag.Point :=
  {| Drag.x := Double.sub (Drag.x a) (Drag.x b);
     Drag.y := Double.sub (Drag.y a) (Drag.y b) |}.

(** The double a decimal fraction [n / d] is written for. *)
Definition decimal (n : Z) (d : positive) : Double.number :=
  Double.of_Q (n # d).

Definition on_the_axis (n : Z) (d : positive) : Drag.Point :=
  {| Drag.x := decimal n d; Drag.y := Double.of_Z 0 |}.

(** The values a list of emitted events reports to [onChange] and
    [onChangeEnd]. *)
Definition reported (out : list Slider.Emitted) (v : Double.number) : Prop :=
  In (Slider.Change v) out \/ In (Slider.ChangeEnd v) out.

(** A callback that returns, and one that raises. *)
Definition returning : option (Double.number -> bool) :=
  Some (fun _ => false).

Definition raising : option (Double.number -> bool) :=
  Some (fun _ => true).

(** The slider of the defaults, at [value]: 0 to 100 in steps of 1, 200 by
    40, thumb radius 8, horizontal, with both callbacks. *)
Definition default_slider (value : Double.number) : Slider.Props :=
  {| Slider.value := value;
     Slider.min := Double.of_Z 0; Slider.max := Double.of_Z 100;
     Slider.step := Double.of_Z 1;
     Slider.width := Double.of_Z 200; Slider.height := Double.of_Z 40;
     Slider.thumbRadius := Double.of_Z 8;
     Slider.orientation := Keys.horizontal;
     Slider.disabled := false;
     Slider.onChange := returning;
     Slider.onChangeEnd := returning |}.

(** The same slider squeezed to a width of twice its thumb radius: the
    track has no length. *)
Definition squeezed_slider : Slider.Props :=
  {| Slider.value := Double.of_Z 40;
     Slider.min := Double.of_Z 0; Slider.max := Double.of_Z 100;
     Slider.step := Double.of_Z 1;
     Slider.width := Double.of_Z 16; Slider.height := Double.of_Z 40;
     Slider.thumbRadius := Double.of_Z 8;
     Slider.orientation := Keys.horizontal;
     Slider.disabled := false;
     Slider.onChange := returning;
     Slider.onChangeEnd := returning |}.

(** The default slider at 40 with an [onChange] that raises. *)
Definition slider_with_raising_onChange : Slider.Props :=
  {| Slider.value := Double.of_Z 40;
     Slider.min := Double.of_Z 0; Slider.max := Double.of_Z 100;
     Slider.step := Double.of_Z 1;
     Slider.width := Double.of_Z 200; Slider.height := Double.of_Z 40;
     Slider.thumbRadius := Double.of_Z 8;
     Slider.orientation := Keys.horizontal;
     Slider.disabled := false;
     Slider.onChange := raising;
     Slider.onChangeEnd := returning |}.

(** The state of a slider at its first render. *)
Definition first_render (p : Slider.Props) : Slider.State :=
  {| Slider.isDragging := false;
     Slider.hoverValue := None;
     Slider.lastValueRef := Slider.value p |}.

(** Whether [cb] is registered after [actions], given whether it was
    [before]: the last action that names it decides. *)
Fixpoint registered_after (cb : Redraw.Callback)
  (actions : list Redraw.Action) (before : bool) : bool :=
  match actions with
  | [] => before
  | Redraw.Register c :: rest =>
      registered_after cb rest (if Nat.eqb c cb then true else before)
  | Redraw.Unregister c :: rest =>
      registered_after cb rest (if Nat.eqb c cb then false else before)
  end.

(** The values of a set, in insertion order. *)
Fixpoint values (s : Redraw.SetData) : list Redraw.Callback :=
  match s with
  | [] => []
  | Some cb :: rest => cb :: values rest
  | None :: rest => values rest
  end.

(** The callbacks a pass over [cbs] invokes when none of them changes the
    set: all of them in order, up to and including the first that raises. *)
Fixpoint until_raise
  (raises_at : list Redraw.Callback -> Redraw.Callback -> bool)
  (cbs sofar : list Redraw.Callback) : list Redraw.Callback * bool :=
  match cbs with
  | [] => (sofar, false)
  | cb :: rest =>
      if raises_at sofar cb then (sofar ++ [cb], true)
      else until_raise raises_at rest (sofar ++ [cb])
  end.

(* ------------------------------------------------------------------------- *)
(** * Properties *)

(** ** Running the monad in proofs *)

Ltac unfold_m :=
  unfold exec, raises, bind, ret, read, call, console, try_catch,
    setInteractionState, set_surfaceRef, set_canvasRef,
    set_animationFrameRef, requestAnimationFrame, cancelAnimationFrame,
    take_frame, dpr_now, the_canvas, set_canvas_width, set_canvas_height,
    set_devicePixelRatio
    in *.

(** Split on the next reply the world gives: the call whose history holds
    no reply that is still unknown. *)
Ltac split_reply :=
  match goal with
  | |- context [respond ?w ?t ?c] =>
      lazymatch t with
      | context [respond] => fail
      | _ =>
          let E := fresh "Hreply" in
          destruct (respond w t c) as [|?v] eqn:E; simpl
      end
  | rsp : list Event -> Call -> Reply |- _ =>
      match goal with
      | |- context [rsp ?t ?c] =>
          lazymatch t with
          | context [rsp] => fail
          | _ =>
              let E := fresh "Hreply" in
              destruct (rsp t c) as [|?v] eqn:E; simpl
          end
      end
  end.

(** Opens a world into its fields, so that every projection computes. *)
Ltac open_world w :=
  let cref := fresh "cref" in
  let sref := fresh "sref" in
  let fref := fresh "fref" in
  let st := fresh "st" in
  let dpr := fresh "dpr" in
  let queue := fresh "queue" in
  let nh := fresh "nh" in
  let log := fresh "log" in
  let rsp := fresh "rsp" in
  destruct w as [cref sref fref st dpr queue nh log rsp];
  cbn [canvasRef surfaceRef animationFrameRef state devicePixelRatio
       pending next_handle trace respond] in *.

(** Follows [setupSurface] through every reply the engine can give. *)
Ltac follow_replies :=
  repeat first
    [ split_reply
    | match goal with
      | |- context [as_surface ?v] => is_var v; destruct v; simpl
      end ].

(** Uses up a membership in an explicit log. *)
Ltac in_log :=
  repeat match goal with
  | H : In _ (_ :: _) |- _ => destruct H as [H | H]
  | H : In _ [] |- _ => destruct H
  | H : (_, _) = (_, _) |- _ => inversion H; clear H; subst
  | H : Value _ = Value _ |- _ => inversion H; clear H; subst
  end.

(** Closes a goal of [surfaces_accounted] once the log is explicit. *)
Ltac account Hheld :=
  unfold surfaces_accounted, single_live;
  cbn [held built_on_empty trace surfaceRef is_construction
       is_MakeCanvasSurface is_MakeSWCanvasSurface orb fst snd];
  rewrite ?Hheld; cbn [remove_one]; rewrite ?Nat.eqb_refl;
  split;
  [ first [ left; reflexivity
          | right; eexists; split; [reflexivity | eassumption || reflexivity]
          | assumption ]
  | repeat split; try assumption; try discriminate;
    intros; cbn [remove_one]; rewrite ?Nat.eqb_refl; reflexivity ].

(** Closes a goal about the frame queue once it is explicit. *)
Ltac queue_auto :=
  unfold one_frame;
  cbn [pending animationFrameRef filter fst snd negb app];
  rewrite ?Pos.eqb_refl; cbn [negb];
  first [ left; reflexivity
        | right; do 2 eexists; split; reflexivity
        | assumption
        | split; reflexivity ].

Lemma exec_bind {A B} (m : M A) (k : A -> M B) (w : World) :
  exec (bind m k) w
  = match m w with
    | (Ok a, w') => exec (k a) w'
    | (Threw, w') => w'
    end.
Proof. unfold exec, bind. destruct (m w) as [[a|] w']; reflexivity. Qed.

Lemma since_refl (t : list Event) : since t t = [].
Proof. unfold since. rewrite Nat.sub_diag. reflexivity. Qed.

Lemma since_cons (t0 t : list Event) (e : Event) :
  (length t0 <= length t)%nat -> since t0 (e :: t) = e :: since t0 t.
Proof.
  intros Hle. unfold since. simpl length.
  replace (S (length t) - length t0)%nat with (S (length t - length t0))
    by lia.
  reflexivity.
Qed.

Lemma new_events_app (w w' : World) (l : list Event) :
  trace w' = l ++ trace w -> new_events w w' = l.
Proof.
  intros Htrace. unfold new_events, since. rewrite Htrace.
  rewrite length_app.
  replace (length l + length (trace w) - length (trace w))%nat
    with (length l) by lia.
  rewrite firstn_app, Nat.sub_diag, firstn_all. simpl.
  apply app_nil_r.
Qed.

(** Computes the events added when the new log is the old one with
    explicit events in front. *)
Ltac log_simpl :=
  unfold new_events; cbn [trace];
  repeat rewrite since_cons by (cbn [length]; lia);
  rewrite ?since_refl.

Lemma num_neq (a b : Z) : a <> b -> num a <> num b.
Proof.
  intros Hab Heq. apply Hab.
  assert (Hred : Qred (inject_Z a) = Qred (inject_Z b))
    by exact (f_equal this Heq).
  apply Qred_eq_iff in Hred.
  unfold Qeq in Hred. simpl in Hred. lia.
Qed.

Lemma or_one_nonzero (d : Qc) : d <> num 0 -> or_one d = d.
Proof.
  intros Hd. unfold or_one. destruct (Qc_eq_dec d (num 0)); congruence.
Qed.

Lemma or_one_zero : or_one (num 0) = num 1.
Proof.
  unfold or_one. destruct (Qc_eq_dec (num 0) (num 0)); congruence.
Qed.

(* ------------------------------------------------------------------------- *)
(** ** Painting without a surface *)

(** C7. When the engine handle is absent or [surfaceRef] is null, [draw] of
    either component returns normally and leaves the world as it was: no
    foreign call is made, so the draw callback is not invoked. *)
Theorem draw_without_surface_is_noop (v : Variant) (p : Closure) (w : World)
  (Hnone : canvasKit p = None \/ surfaceRef w = None) :
  draw v p w = (Ok tt, w) /\
  count_calls is_OnDraw (new_events w (exec (draw v p) w)) = 0%nat.
Proof.
  assert (Hrun : draw v p w = (Ok tt, w)).
  { destruct v; unfold draw, Plain.draw, Interactive.draw; unfold_m;
      destruct Hnone as [Hck | Hs]; rewrite ?Hck, ?Hs;
      destruct (canvasKit p); reflexivity. }
  split; [exact Hrun|].
  unfold exec. rewrite Hrun. simpl.
  unfold new_events. rewrite since_refl. reflexivity.
Qed.

Lemma draw_without_surface_is_noop_witness :
  draw SkiaCanvas (Sample.props (num 400) (num 300) true)
       (Sample.mounted (num 2) Sample.failing_callback)
  = (Ok tt, Sample.mounted (num 2) Sample.failing_callback).
Proof.
  apply (draw_without_surface_is_noop SkiaCanvas
           (Sample.props (num 400) (num 300) true)
           (Sample.mounted (num 2) Sample.failing_callback)).
  right. reflexivity.
Defined.

(* ------------------------------------------------------------------------- *)
(** ** The interaction state *)

Lemma initial_pressed_iff_active :
  pressed_iff_active Interactive.initialInteractionState.
Proof.
  unfold pressed_iff_active. simpl. split; [discriminate | congruence].
Qed.

(** Each handler keeps the invariant, whatever the callbacks and the DOM
    answer and whether or not the handler runs to its end. *)
Lemma handle_pressed_iff_active (p : Closure) (i : PointerInput) (w : World) :
  pressed_iff_active (state w) ->
  pressed_iff_active (state (exec (handle p i) w)).
Proof.
  intros Hinv.
  destruct i; unfold handle, Interactive.handlePointerDown,
    Interactive.handlePointerMove, Interactive.handlePointerUp,
    Interactive.handlePointerLeave; unfold_m;
    destruct (interactive p); simpl; try exact Hinv;
    try (destruct (canvasRef w); simpl; try exact Hinv);
    repeat split_reply;
    repeat match goal with
    | |- context [if ?b then _ else _] => destruct b; simpl
    end;
    repeat split_reply;
    unfold pressed_iff_active in *; simpl;
    try exact Hinv;
    try (split; [discriminate | congruence]);
    try (split; [reflexivity | discriminate || (intros _; discriminate)]).
Qed.

Lemma handlers_pressed_iff_active (inputs : list (Closure * PointerInput)) :
  forall w : World,
    pressed_iff_active (state w) ->
    pressed_iff_active
      (state (exec_all (map (fun pi => handle (fst pi) (snd pi)) inputs) w)).
Proof.
  induction inputs as [|[p i] rest IH]; intros w Hinv; simpl.
  - exact Hinv.
  - apply IH. apply handle_pressed_iff_active. exact Hinv.
Qed.

(** C10. Starting from the initial interaction state, after any sequence of
    pointer-down, pointer-move, pointer-up, pointer-cancel and pointer-leave
    events, each handled under the props of its render, [isPressed] is true
    if and only if [activePointerId] is not null. *)
Theorem isPressed_iff_activePointerId
  (w : World) (inputs : list (Closure * PointerInput))
  (Hinit : state w = Interactive.initialInteractionState) :
  pressed_iff_active
    (state (exec_all (map (fun pi => handle (fst pi) (snd pi)) inputs) w)).
Proof.
  apply handlers_pressed_iff_active.
  rewrite Hinit. exact initial_pressed_iff_active.
Qed.

Lemma isPressed_iff_activePointerId_witness :
  pressed_iff_active
    (state (exec_all
       (map (fun pi => handle (fst pi) (snd pi))
          [(Sample.props (num 400) (num 300) false,
            PointerDown (Sample.pointer (num 120) (num 80) 7));
           (Sample.props (num 400) (num 300) false,
            PointerMove (Sample.pointer (num 130) (num 90) 7));
           (Sample.props (num 400) (num 300) false, PointerLeave);
           (Sample.props (num 400) (num 300) false,
            PointerUp (Sample.pointer (num 500) (num 90) 7))])
       (Sample.mounted (num 2) Sample.healthy))).
Proof.
  apply (isPressed_iff_activePointerId
           (Sample.mounted (num 2) Sample.healthy)).
  reflexivity.
Defined.

(* ------------------------------------------------------------------------- *)
(** ** Pointer normalisation *)

Lemma num_sub (a b : Z) : num a - num b = num (a - b).
Proof.
  apply Qc_is_canon.
  unfold num, Qcminus, Qcplus, Qcopp, Q2Qc; cbn [this].
  rewrite !Qred_correct.
  unfold Qeq, Qplus, Qopp, inject_Z; cbn [Qnum Qden]. lia.
Qed.

(** With a box as wide as the logical size and a buffer twice as wide, the
    buffer-to-box ratio undoes the division by the pixel ratio. *)
Lemma normalize_at_ratio_two (c side : Qc) :
  side <> num 0 -> c * (num 2 * side / side) / num 2 = c.
Proof.
  intros Hside. field. split; [exact Hside | apply num_neq; lia].
Qed.

Lemma normalizePointerEvent_press
  (w h : Qc) (e : PointerEvent) (canvas : HTMLCanvasElement) :
  num 0 < w -> num 0 < h ->
  press_scenario w h e canvas ->
  x (normalizePointerEvent e canvas (num 2)) = num 100 /\
  y (normalizePointerEvent e canvas (num 2)) = num 70.
Proof.
  intros Hw Hh (Hx & Hy & Hl & Ht & Hrw & Hrh & Hcw & Hch).
  assert (Hw0 : w <> num 0) by (intros ->; exact (Qclt_not_eq _ _ Hw eq_refl)).
  assert (Hh0 : h <> num 0) by (intros ->; exact (Qclt_not_eq _ _ Hh eq_refl)).
  unfold normalizePointerEvent; simpl.
  rewrite Hx, Hy, Hl, Ht, Hrw, Hrh, Hcw, Hch.
  rewrite (or_one_nonzero (d := num 2)) by (apply num_neq; lia).
  rewrite !num_sub. simpl.
  split; apply normalize_at_ratio_two; assumption.
Qed.

(** C9. A pointer-down at client (120, 80) on a canvas whose bounding box
    starts at (20, 10), whose CSS size is its logical size (w, h) and whose
    buffer is (2w, 2h), in a window of pixel ratio 2, is normalised by
    [normalizePointerEvent] to (100, 70); [handlePointerDown] stores that
    point as the pointer position and hands exactly that event to the
    [onPointerDown] callback, which is reached once pointer capture has
    been taken. *)
Theorem press_at_120_80_is_delivered_as_100_70
  (w h : Qc) (e : PointerEvent) (canvas : HTMLCanvasElement)
  (p : Closure) (wd : World)
  (Hw : num 0 < w) (Hh : num 0 < h)
  (Hscene : press_scenario w h e canvas)
  (Hcanvas : canvasRef wd = Some canvas)
  (Hdpr : devicePixelRatio wd = num 2)
  (Hinteractive : interactive p = true)
  (Hcallback : onPointerDown p = true) :
  let n := normalizePointerEvent e canvas (num 2) in
  let after := exec (Interactive.handlePointerDown p e) wd in
  x n = num 100 /\ y n = num 70 /\
  pointerPosition (state after) = Some {| px := num 100; py := num 70 |} /\
  (forall d r, In (OnPointerDown d, r) (new_events wd after) -> d = n) /\
  (respond wd (trace wd) (SetPointerCapture (ev_pointerId e)) <> Raise ->
   exists r, hd_error (trace after) = Some (OnPointerDown n, r)).
Proof.
  intros n after.
  destruct (normalizePointerEvent_press Hw Hh Hscene) as [Hnx Hny].
  fold n in Hnx, Hny.
  split; [exact Hnx|]. split; [exact Hny|].
  subst after. unfold Interactive.handlePointerDown. unfold_m.
  rewrite Hinteractive, Hcanvas, Hcallback, Hdpr. fold n.
  clearbody n. simpl.
  destruct (respond wd (trace wd) (SetPointerCapture (ev_pointerId e)))
    as [|v] eqn:Hcap; simpl.
  - rewrite Hnx, Hny. split; [reflexivity|]. split.
    + intros d r Hin.
      rewrite (@new_events_app wd _
                 [(SetPointerCapture (ev_pointerId e), Raise)]) in Hin
        by reflexivity.
      destruct Hin as [Heq | []]. discriminate Heq.
    + intros Hno. contradiction Hno. reflexivity.
  - match goal with
    | |- context [respond wd ?t (OnPointerDown n)] =>
        destruct (respond wd t (OnPointerDown n)) as [|v'] eqn:Hcb
    end; simpl; rewrite Hnx, Hny;
      (split; [reflexivity|]); split.
    + intros d r Hin.
      rewrite (@new_events_app wd _
                 [(OnPointerDown n, Raise);
                  (SetPointerCapture (ev_pointerId e), Value v)]) in Hin
        by reflexivity.
      destruct Hin as [Heq | [Heq | []]]; congruence.
    + intros _. eexists. reflexivity.
    + intros d r Hin.
      rewrite (@new_events_app wd _
                 [(OnPointerDown n, Value v');
                  (SetPointerCapture (ev_pointerId e), Value v)]) in Hin
        by reflexivity.
      destruct Hin as [Heq | [Heq | []]]; congruence.
    + intros _. eexists. reflexivity.
Qed.

Lemma press_at_120_80_is_delivered_as_100_70_witness :
  pointerPosition
    (state (exec (Interactive.handlePointerDown
                    (Sample.props (num 400) (num 300) false)
                    (Sample.pointer (num 120) (num 80) 7))
                 (Sample.hidpi (num 400) (num 300) Sample.healthy)))
  = Some {| px := num 100; py := num 70 |}.
Proof.
  pose proof (@press_at_120_80_is_delivered_as_100_70
                (num 400) (num 300)
                (Sample.pointer (num 120) (num 80) 7)
                (Sample.hidpi_element (num 400) (num 300))
                (Sample.props (num 400) (num 300) false)
                (Sample.hidpi (num 400) (num 300) Sample.healthy)) as Hpress.
  cbv zeta in Hpress.
  apply Hpress.
  - reflexivity.
  - reflexivity.
  - repeat split.
  - reflexivity.
  - reflexivity.
  - reflexivity.
  - reflexivity.
Defined.

(* ------------------------------------------------------------------------- *)
(** ** A failed paint and the render loop *)

(** The [try] block of the interactive [draw] only talks to the engine and
    to the callback: refs and frame queue are as before, however it ends. *)
Lemma draw_body_frame (p : Closure) (s : Surface) (w : World) :
  let w' := exec (Interactive.draw_body p s) w in
  pending w' = pending w /\ animationFrameRef w' = animationFrameRef w /\
  surfaceRef w' = surfaceRef w /\ next_handle w' = next_handle w.
Proof.
  unfold Interactive.draw_body. unfold_m. simpl.
  repeat split_reply; repeat split; reflexivity.
Qed.

Lemma failed_draw_keeps_queue
  (v : Variant) (p : Closure) (w : World) (s : Surface) :
  canvasKit p <> None -> surfaceRef w = Some s -> paint_fails v p s w ->
  pending (exec (draw v p) w) = pending w /\
  animationFrameRef (exec (draw v p) w) = animationFrameRef w.
Proof.
  intros Hkit Hsurface. destruct v; cbn [paint_fails draw].
  - unfold exec, Plain.draw. unfold_m. rewrite Hsurface.
    destruct (canvasKit p) as [ck|]; [|congruence]. simpl.
    repeat split_reply; try (destruct (animate p); simpl);
      intros Hfail; try discriminate Hfail; split; reflexivity.
  - intros Hfail.
    destruct (draw_body_frame p s w) as (Hpend & Hframe & _ & _).
    unfold Interactive.draw. unfold_m. rewrite Hsurface.
    destruct (canvasKit p) as [ck|]; [|congruence].
    destruct (Interactive.draw_body p s w) as [[[]|] w1];
      simpl in *; [discriminate|].
    split; assumption.
Qed.

(** C3. In continuous mode ([animate] true), with a surface bound: when the
    paint body raises, [draw] requests no animation frame.  The frame queue
    and [animationFrameRef] are what they were before the call, in the
    interactive canvas (which swallows the failure and returns) and in the
    plain canvas (where the failure leaves [draw] before the request). *)
Theorem failed_paint_requests_no_frame
  (v : Variant) (p : Closure) (w : World) (s : Surface)
  (Hanimate : animate p = true)
  (Hkit : canvasKit p <> None)
  (Hsurface : surfaceRef w = Some s)
  (Hfails : paint_fails v p s w) :
  pending (exec (draw v p) w) = pending w /\
  animationFrameRef (exec (draw v p) w) = animationFrameRef w.
Proof.
  exact (@failed_draw_keeps_queue v p w s Hkit Hsurface Hfails).
Qed.

Lemma failed_paint_requests_no_frame_witness :
  pending (exec (draw SkiaInteractiveCanvas
                   (Sample.props (num 400) (num 300) true))
             (Sample.looping 1%nat 1%positive
                (Sample.props (num 400) (num 300) true)
                Sample.failing_callback))
  = pending (Sample.looping 1%nat 1%positive
               (Sample.props (num 400) (num 300) true)
               Sample.failing_callback).
Proof.
  apply (@failed_paint_requests_no_frame SkiaInteractiveCanvas
           (Sample.props (num 400) (num 300) true)
           (Sample.looping 1%nat 1%positive
              (Sample.props (num 400) (num 300) true)
              Sample.failing_callback)
           1%nat).
  - reflexivity.
  - discriminate.
  - reflexivity.
  - reflexivity.
Defined.

(** The loop itself: frame [h] is the only one queued, for closure [p]; it
    runs and its paint fails.  Nothing is queued afterwards. *)
Lemma failed_frame_empties_queue
  (v : Variant) (h : positive) (p : Closure) (w : World) (s : Surface) :
  pending w = [(h, p)] -> canvasKit p <> None -> surfaceRef w = Some s ->
  paint_fails v p s (exec (take_frame h) w) ->
  pending (exec (tick v h) w) = [].
Proof.
  intros Hq Hkit Hsurface Hfails.
  assert (Htick : exec (tick v h) w
                  = exec (draw v p) (exec (take_frame h) w)).
  { destruct v; unfold tick, Plain.tick, Interactive.tick;
      rewrite exec_bind; unfold exec, take_frame; rewrite Hq;
      cbn [find fst option_map snd filter]; rewrite Pos.eqb_refl;
      reflexivity. }
  rewrite Htick.
  assert (Hsurface' : surfaceRef (exec (take_frame h) w) = Some s)
    by exact Hsurface.
  destruct (@failed_draw_keeps_queue v p _ s Hkit Hsurface' Hfails)
    as [Hpend _].
  rewrite Hpend. unfold exec, take_frame. cbn [snd pending].
  rewrite Hq. cbn [filter fst]. rewrite Pos.eqb_refl. reflexivity.
Qed.

(** A paint that goes through in continuous mode requests exactly one frame,
    for the same closure, and records its handle. *)
Lemma completed_paint_requests_one_frame
  (v : Variant) (p : Closure) (w : World) (s : Surface) :
  animate p = true -> canvasKit p <> None -> surfaceRef w = Some s ->
  (forall t c, respond w t c <> Raise) ->
  pending (exec (draw v p) w) = pending w ++ [(next_handle w, p)] /\
  animationFrameRef (exec (draw v p) w) = Some (next_handle w).
Proof.
  intros Hanimate Hkit Hsurface Hfine.
  destruct v; unfold draw, Plain.draw, Interactive.draw,
    Interactive.draw_body; unfold_m; rewrite Hsurface, Hanimate;
    (destruct (canvasKit p) as [ck|]; [|congruence]); simpl;
    repeat (split_reply;
            [match goal with H : respond w _ _ = Raise |- _ =>
               contradiction (Hfine _ _ H) end|]);
    split; reflexivity.
Qed.

(** The loop when the callback raises: frame 1 is queued and runs;
    afterwards nothing is queued, in either component.  On a healthy engine
    the frame is replaced by the next one. *)
Example failing_tick_empties_the_queue :
  let p := Sample.props (num 400) (num 300) true in
  let w := Sample.looping 1%nat 1%positive p Sample.failing_callback in
  pending (exec (tick SkiaInteractiveCanvas 1%positive) w) = [] /\
  pending (exec (tick SkiaCanvas 1%positive) w) = [].
Proof. split; reflexivity. Qed.

Example healthy_tick_requeues_once :
  let p := Sample.props (num 400) (num 300) true in
  let w := Sample.looping 1%nat 1%positive p Sample.healthy in
  map fst (pending (exec (tick SkiaInteractiveCanvas 1%positive) w))
  = [2%positive] /\
  map fst (pending (exec (tick SkiaCanvas 1%positive) w)) = [2%positive].
Proof. split; reflexivity. Qed.

(* ------------------------------------------------------------------------- *)
(** ** Failure containment in [draw] *)

(** The interactive canvas wraps the whole paint in [try]/[catch]: whatever
    the engine and the callback do, [draw] returns. *)
Lemma interactive_draw_never_raises (p : Closure) (w : World) :
  fst (Interactive.draw p w) = Ok tt.
Proof.
  unfold Interactive.draw. unfold_m.
  destruct (canvasKit p) as [ck|], (surfaceRef w) as [s|]; try reflexivity.
  destruct (Interactive.draw_body p s w) as [[[]|] w1]; simpl;
    destruct (animate p); reflexivity.
Qed.

(** The callback of the interactive canvas is invoked at most once per
    [draw], and exactly once when [getCanvas], [save] and [scale] return. *)
Lemma interactive_draw_calls_back_at_most_once (p : Closure) (w : World) :
  (count_calls is_OnDraw (new_events w (exec (Interactive.draw p) w)) <= 1)%nat.
Proof.
  unfold Interactive.draw, Interactive.draw_body. unfold_m.
  destruct (canvasKit p) as [ck|], (surfaceRef w) as [s|]; simpl;
    try (unfold new_events; rewrite since_refl; unfold count_calls;
         simpl; lia).
  repeat split_reply; try (destruct (animate p); simpl);
    log_simpl; unfold count_calls; simpl; lia.
Qed.

(** C1. The plain canvas does not contain a failing paint.  With a surface
    bound, a draw callback that raises, or a surface lost behind the
    component's back (its [getCanvas] raises), makes [draw] of [SkiaCanvas]
    raise to its caller; [draw] of [SkiaInteractiveCanvas] returns normally
    on both inputs. *)
Theorem plain_draw_lets_paint_failures_escape :
  let p := Sample.props (num 400) (num 300) false in
  let callback_raises :=
    Sample.looping 1%nat 1%positive p Sample.failing_callback in
  let surface_lost :=
    Sample.looping 1%nat 1%positive p Sample.context_lost in
  raises (draw SkiaCanvas p) callback_raises = true /\
  raises (draw SkiaCanvas p) surface_lost = true /\
  raises (draw SkiaInteractiveCanvas p) callback_raises = false /\
  raises (draw SkiaInteractiveCanvas p) surface_lost = false.
Proof. repeat split; reflexivity. Qed.

(* ------------------------------------------------------------------------- *)
(** ** Teardown *)

Lemma interactive_cleanup_never_raises (w : World) :
  fst (Interactive.cleanup w) = Ok tt.
Proof.
  unfold Interactive.cleanup. unfold_m.
  destruct (animationFrameRef w) as [h|], (surfaceRef w) as [s|]; simpl;
    try reflexivity; split_reply; reflexivity.
Qed.

(** After the interactive cleanup both refs are null. *)
Lemma interactive_cleanup_clears_refs (w : World) :
  surfaceRef (exec Interactive.cleanup w) = None /\
  animationFrameRef (exec Interactive.cleanup w) = None.
Proof.
  unfold Interactive.cleanup. unfold_m.
  destruct (animationFrameRef w) as [h|] eqn:Hf,
    (surfaceRef w) as [s|] eqn:Hs; simpl;
    try (split; assumption || reflexivity);
    split_reply; split; assumption || reflexivity.
Qed.

(** Run again, the interactive cleanup finds nothing left to do. *)
Lemma interactive_cleanup_idempotent (w : World) :
  Interactive.cleanup (exec Interactive.cleanup w)
  = (Ok tt, exec Interactive.cleanup w).
Proof.
  destruct (interactive_cleanup_clears_refs w) as [Hs Hf].
  unfold Interactive.cleanup at 1. unfold_m. unfold exec in Hs, Hf.
  rewrite Hf, Hs. reflexivity.
Qed.

(** The plain cleanup raises exactly when a surface is bound and its
    [delete] raises; the surface then stays in [surfaceRef]. *)
Lemma plain_cleanup_raises_iff (w : World) :
  fst (Plain.cleanup w) = Threw <->
  exists s, surfaceRef w = Some s /\
            respond w (trace w) (SurfaceDelete s) = Raise.
Proof.
  open_world w. unfold Plain.cleanup. unfold_m. simpl.
  destruct fref as [h|], sref as [s0|]; simpl;
    try (split; [discriminate | intros (s & Hs & _); discriminate Hs]);
    destruct (rsp log (SurfaceDelete s0)) as [|v] eqn:Hreply; simpl;
    (split;
     [ intros Hthrew;
       first [ discriminate Hthrew
             | exists s0; split; [reflexivity | exact Hreply] ]
     | intros (s & Hs & Hraise); inversion Hs; subst s;
       first [ congruence | reflexivity ] ]).
Qed.

Lemma plain_cleanup_failure_keeps_surface (w : World) :
  fst (Plain.cleanup w) = Threw ->
  surfaceRef (exec Plain.cleanup w) = surfaceRef w /\
  surfaceRef w <> None.
Proof.
  open_world w. unfold Plain.cleanup. unfold_m. simpl.
  destruct fref as [h|], sref as [s0|]; simpl;
    try discriminate; split_reply; intros Hthrew;
    try discriminate Hthrew; (split; [reflexivity | discriminate]).
Qed.

(** C6. The cleanup of the plain canvas is not defensive.  With a surface
    bound whose handle was invalidated out of band ([delete] raises), the
    cleanup of [SkiaCanvas] raises and leaves the surface in [surfaceRef];
    run a second time it raises again.  The cleanup of
    [SkiaInteractiveCanvas] on the same input returns, clears the ref, and
    returns again unchanged when repeated. *)
Theorem plain_cleanup_raises_on_invalidated_surface :
  let p := Sample.props (num 400) (num 300) false in
  let w := Sample.looping 1%nat 1%positive p Sample.context_lost in
  raises (cleanup SkiaCanvas) w = true /\
  surfaceRef (exec (cleanup SkiaCanvas) w) = Some 1%nat /\
  raises (cleanup SkiaCanvas) (exec (cleanup SkiaCanvas) w) = true /\
  raises (cleanup SkiaInteractiveCanvas) w = false /\
  surfaceRef (exec (cleanup SkiaInteractiveCanvas) w) = None /\
  raises (cleanup SkiaInteractiveCanvas)
    (exec (cleanup SkiaInteractiveCanvas) w) = false.
Proof. repeat split; reflexivity. Qed.

(* ------------------------------------------------------------------------- *)
(** ** Hardware first, software as the fallback *)

(** When hardware construction hands out a surface, no software construction
    is attempted, in either component. *)
Lemma hardware_success_skips_software
  (v : Variant) (p : Closure) (w : World)
  (c : HTMLCanvasElement) (s : Surface) :
  In (MakeCanvasSurface c, Value (VSurface s))
     (new_events w (exec (setupSurface v p) w)) ->
  count_calls is_MakeSWCanvasSurface
    (new_events w (exec (setupSurface v p) w)) = 0%nat.
Proof.
  open_world w.
  destruct v; unfold setupSurface, Plain.setupSurface,
    Plain.release_previous, Plain.construct,
    Interactive.setupSurface, Interactive.release_previous,
    Interactive.construct, Interactive.software_attempt; unfold_m; simpl;
    destruct (canvasKit p) as [ck|], cref as [cv|], sref as [s0|]; simpl;
    follow_replies; log_simpl; intros Hin; in_log;
    try discriminate; try reflexivity.
Qed.

(** In the interactive canvas, a hardware construction that returns without
    a surface is followed by exactly one software construction. *)
Lemma interactive_null_hardware_one_software_attempt
  (p : Closure) (w : World) (c : HTMLCanvasElement) (v : Val) :
  as_surface v = None ->
  In (MakeCanvasSurface c, Value v)
     (new_events w (exec (Interactive.setupSurface p) w)) ->
  count_calls is_MakeSWCanvasSurface
    (new_events w (exec (Interactive.setupSurface p) w)) = 1%nat.
Proof.
  intros Hnull. open_world w.
  unfold Interactive.setupSurface, Interactive.release_previous,
    Interactive.construct, Interactive.software_attempt; unfold_m;
    simpl;
    destruct (canvasKit p) as [ck|], cref as [cv|], sref as [s0|]; simpl;
    follow_replies; log_simpl; intros Hin; in_log;
    try discriminate; try reflexivity.
Qed.

(** In the interactive canvas, a hardware construction that raises is
    followed by one software construction, and by a second one exactly when
    the first returned without a surface. *)
Lemma interactive_hardware_raise_software_attempts
  (p : Closure) (w : World) (c : HTMLCanvasElement) :
  let log := new_events w (exec (Interactive.setupSurface p) w) in
  In (MakeCanvasSurface c, Raise) log ->
  (1 <= count_calls is_MakeSWCanvasSurface log <= 2)%nat /\
  (count_calls is_MakeSWCanvasSurface log = 2%nat <->
   exists c' v, as_surface v = None /\
     nth_error (rev (filter (fun e => is_MakeSWCanvasSurface (fst e)) log)) 0
     = Some (MakeSWCanvasSurface c', Value v)).
Proof.
  open_world w.
  unfold Interactive.setupSurface, Interactive.release_previous,
    Interactive.construct, Interactive.software_attempt; unfold_m;
    simpl;
    destruct (canvasKit p) as [ck|], cref as [cv|], sref as [s0|]; simpl;
    follow_replies; log_simpl; intros Hin; in_log;
    try discriminate;
    unfold count_calls; simpl;
    (split; [lia|]);
    (split;
     [ intros Hcount;
       first [ discriminate Hcount
             | do 2 eexists; (split; [|reflexivity]); reflexivity ]
     | intros (c' & v' & Hnull & Hnth);
       inversion Hnth; subst; try discriminate Hnull; reflexivity ]).
Qed.

(** C2. Software construction is not attempted exactly once on every
    failure of hardware construction.  When [MakeCanvasSurface] returns
    null, [setupSurface] of the plain canvas returns null with no software
    attempt; when it raises, the plain [setupSurface] raises, again with no
    software attempt.  When [MakeCanvasSurface] raises and
    [MakeSWCanvasSurface] returns null, [setupSurface] of the interactive
    canvas calls [MakeSWCanvasSurface] twice before it returns null. *)
Theorem software_fallback_missing_or_repeated :
  let p := Sample.props (num 400) (num 300) false in
  let attempts (v : Variant) (w : World) :=
    count_calls is_MakeSWCanvasSurface
      (new_events w (exec (setupSurface v p) w)) in
  let hw_null := Sample.mounted (num 2) Sample.null_hardware in
  let hw_raises := Sample.mounted (num 2) Sample.no_webgl in
  let sw_null := Sample.mounted (num 2) Sample.no_webgl_null_software in
  (fst (setupSurface SkiaCanvas p hw_null) = Ok None /\
   attempts SkiaCanvas hw_null = 0%nat) /\
  (fst (setupSurface SkiaCanvas p hw_raises) = Threw /\
   attempts SkiaCanvas hw_raises = 0%nat) /\
  (fst (setupSurface SkiaInteractiveCanvas p sw_null) = Ok None /\
   attempts SkiaInteractiveCanvas sw_null = 2%nat).
Proof. repeat split; reflexivity. Qed.

(* ------------------------------------------------------------------------- *)
(** ** Pixel ratio: buffer size and logical coordinates *)

Lemma num_inj (a b : Z) : num a = num b -> a = b.
Proof.
  intros Heq. destruct (Z.eq_dec a b) as [Hab | Hab]; [exact Hab|].
  contradiction (num_neq Hab Heq).
Qed.

Lemma floor_Q2Qc (q : Q) : floor (Q2Qc q) = num (Qfloor q).
Proof.
  unfold floor. f_equal. unfold Q2Qc; cbn [this].
  apply Qfloor_comp. apply Qred_correct.
Qed.

Lemma ceil_Q2Qc (q : Q) : ceil (Q2Qc q) = num (Qceiling q).
Proof.
  unfold ceil. f_equal. unfold Q2Qc; cbn [this].
  apply Qceiling_comp. apply Qred_correct.
Qed.

(** Floor and ceiling agree on the whole numbers only. *)
Lemma floor_is_ceiling_iff_whole (q : Q) :
  Qfloor q = Qceiling q <-> exists z, (q == inject_Z z)%Q.
Proof.
  split.
  - intros Heq. exists (Qfloor q).
    apply Qle_antisym.
    + rewrite Heq. apply Qle_ceiling.
    + apply Qfloor_le.
  - intros [z Hz].
    rewrite (Qfloor_comp q (inject_Z z) Hz), (Qceiling_comp q (inject_Z z) Hz).
    rewrite Qfloor_Z, Qceiling_Z. reflexivity.
Qed.

(** The integer part of a finite double that is not negative is the floor
    of the rational it is. *)
Lemma integer_part_is_floor (a : Double.number) :
  Double.is_finite a = true -> (0 <= Double.to_Q a)%Q ->
  Double.integer_part a = Qfloor (Double.to_Q a).
Proof.
  destruct a as [s | s | | s m e]; try discriminate; intros _ Hpos.
  - reflexivity.
  - destruct s.
    + exfalso. revert Hpos.
      destruct e; unfold Double.to_Q, Qle, inject_Z; cbn [Qnum Qden]; lia.
    + unfold Double.integer_part, Double.to_Q.
      destruct e as [|e|k].
      * rewrite Qfloor_Z. rewrite Z.shiftl_mul_pow2 by lia. reflexivity.
      * rewrite Qfloor_Z. rewrite Z.shiftl_mul_pow2 by lia. reflexivity.
      * rewrite Z.shiftl_div_pow2 by lia.
        unfold Qfloor. rewrite Pos2Z.inj_pow. reflexivity.
Qed.

(** A size from 0 to below 2^31 is kept by the canvas as its integer part:
    rounded down, never up. *)
Lemma canvas_size_is_floor (default : Z) (a : Double.number) :
  Double.is_finite a = true ->
  (0 <= Double.to_Q a)%Q -> (Double.to_Q a < inject_Z (2 ^ 31))%Q ->
  canvas_size default a = num (Qfloor (Double.to_Q a)).
Proof.
  intros Hfinite Hpos Hsmall.
  unfold canvas_size, to_unsigned_long.
  rewrite (integer_part_is_floor a Hfinite Hpos).
  assert (Hlow : (0 <= Qfloor (Double.to_Q a))%Z).
  { rewrite <- (Qfloor_Z 0). apply Qfloor_resp_le. exact Hpos. }
  assert (Hhigh : (Qfloor (Double.to_Q a) < 2 ^ 31)%Z).
  { rewrite Zlt_Qlt.
    apply Qle_lt_trans with (Double.to_Q a); [apply Qfloor_le | exact Hsmall]. }
  rewrite Z.mod_small by lia.
  destruct (Z.leb_spec (Qfloor (Double.to_Q a)) 2147483647);
    [reflexivity | lia].
Qed.

(** C5, as the code and the canvas element have it.  Every surface
    construction [setupSurface] requests, hardware or software, is for a
    canvas whose buffer size is what the element keeps of the doubles
    [w * d] and [h * d] assigned to it, d being
    [window.devicePixelRatio || 1].  The code applies no rounding of its own;
    the element keeps the integer part: for a product from 0 to below 2^31
    its floor, which is the ceiling only when the product is a whole number.
    Every draw callback invoked by [draw] receives the logical (w, h), and
    the canvas was scaled by (d, d). *)
Theorem buffer_is_scaled_size_and_callback_sees_logical_size
  (v : Variant) (p : Closure) (w : World) :
  let d := or_one (devicePixelRatio w) in
  let built := new_events w (exec (setupSurface v p) w) in
  let painted := new_events w (exec (draw v p) w) in
  (forall c r,
     In (MakeCanvasSurface c, r) built \/ In (MakeSWCanvasSurface c, r) built ->
     canvas_width c = canvas_size 300 (js_mul (width p) d) /\
     canvas_height c = canvas_size 150 (js_mul (height p) d)) /\
  (forall default a,
     Double.is_finite a = true ->
     (0 <= Double.to_Q a)%Q -> (Double.to_Q a < inject_Z (2 ^ 31))%Q ->
     canvas_size default a = floor (Q2Qc (Double.to_Q a)) /\
     (canvas_size default a = ceil (Q2Qc (Double.to_Q a)) <->
      exists z, (Double.to_Q a == inject_Z z)%Q)) /\
  (forall cw ch tf ist r,
     In (OnDraw cw ch tf ist, r) painted -> cw = width p /\ ch = height p) /\
  (forall sx sy r,
     In (CanvasScale sx sy, r) painted -> sx = d /\ sy = d).
Proof.
  intros d built painted. subst d built painted. open_world w.
  split; [|split; [|split]].
  - intros c r.
    destruct v; unfold setupSurface, Plain.setupSurface,
      Plain.release_previous, Plain.construct,
      Interactive.setupSurface, Interactive.release_previous,
      Interactive.construct, Interactive.software_attempt; unfold_m;
      simpl;
      destruct (canvasKit p) as [ck|], cref as [cv|], sref as [s0|]; simpl;
      follow_replies; log_simpl; intros [Hin | Hin]; in_log;
      try discriminate; split; reflexivity.
  - intros default a Hfinite Hpos Hsmall.
    rewrite (canvas_size_is_floor default a Hfinite Hpos Hsmall).
    rewrite floor_Q2Qc, ceil_Q2Qc.
    split; [reflexivity|].
    rewrite <- floor_is_ceiling_iff_whole.
    split; [apply num_inj | intros ->; reflexivity].
  - intros cw ch tf ist r.
    destruct v; unfold draw, Plain.draw, Interactive.draw,
      Interactive.draw_body; unfold_m; simpl;
      destruct (canvasKit p) as [ck|], sref as [s0|]; simpl;
      follow_replies; try (destruct (animate p); simpl);
      log_simpl; intros Hin; in_log; try discriminate; split; reflexivity.
  - intros sx sy r.
    destruct v; unfold draw, Plain.draw, Interactive.draw,
      Interactive.draw_body; unfold_m; simpl;
      destruct (canvasKit p) as [ck|], sref as [s0|]; simpl;
      follow_replies; try (destruct (animate p); simpl);
      log_simpl; intros Hin; in_log; try discriminate; split; reflexivity.
Qed.

(** At 101x75 and pixel ratio 1.5 the products are 151.5 and 112.5 and the
    buffer is 151 by 112: not the ceilings 152 and 113. *)
Lemma buffer_request_is_not_rounded_up :
  ~ (forall c r,
       In (MakeCanvasSurface c, r)
          (new_events Sample.fractional
             (exec (setupSurface SkiaInteractiveCanvas Sample.odd_props)
                Sample.fractional)) ->
       canvas_width c
       = ceil (width Sample.odd_props
               * or_one (devicePixelRatio Sample.fractional)) /\
       canvas_height c
       = ceil (height Sample.odd_props
               * or_one (devicePixelRatio Sample.fractional))).
Proof.
  intros Hclaim.
  destruct (Hclaim
              {| canvas_width := num 151;
                 canvas_height := num 112;
                 boundingClientRect := Sample.rect0 |}
              (Value (VSurface 1%nat))) as [Hwidth _].
  - left. reflexivity.
  - apply (f_equal this) in Hwidth. vm_compute in Hwidth.
    discriminate Hwidth.
Qed.

Example fractional_buffer_sizes :
  canvas_size 300 (js_mul (num 101) (Q2Qc (3 # 2))) = num 151 /\
  ceil (num 101 * Q2Qc (3 # 2)) = num 152 /\
  canvas_size 150 (js_mul (num 75) (Q2Qc (3 # 2))) = num 112 /\
  ceil (num 75 * Q2Qc (3 # 2)) = num 113.
Proof. repeat split; reflexivity. Qed.

(** The product is the double the code computes, not the exact one: 10 times
    the double 0.7 is a little below 7 and rounds to 7, which the canvas
    keeps; a negative size falls back to the default. *)
Example rounded_and_negative_buffer_sizes :
  floor (num 10 * Sample.seven_tenths) = num 6 /\
  canvas_size 300 (js_mul (num 10) Sample.seven_tenths) = num 7 /\
  canvas_size 300 (js_mul (num (-5)) (num 2)) = num 300 /\
  canvas_size 150 Double.NaN = num 0.
Proof. repeat split; reflexivity. Qed.

(* ------------------------------------------------------------------------- *)
(** ** One live surface *)

Lemma setupSurface_accounted (v : Variant) (p : Closure) (w : World) :
  surfaces_accounted w -> surfaces_accounted (exec (setupSurface v p) w).
Proof.
  intros [Hlive Hbuilt]. open_world w.
  unfold single_live in Hlive; cbn [trace surfaceRef] in Hlive.
  destruct v; unfold setupSurface, Plain.setupSurface,
    Plain.release_previous, Plain.construct,
    Interactive.setupSurface, Interactive.release_previous,
    Interactive.construct, Interactive.software_attempt; unfold_m; simpl;
    destruct (canvasKit p) as [ck|], cref as [cv|], sref as [s0|]; simpl;
    follow_replies;
    destruct Hlive as [Hheld | (bound & Hheld & Hbound)];
    try discriminate Hbound; try (inversion Hbound; subst bound);
    account Hheld.
Qed.

Lemma draw_accounted (v : Variant) (p : Closure) (w : World) :
  surfaces_accounted w -> surfaces_accounted (exec (draw v p) w).
Proof.
  intros [Hlive Hbuilt]. open_world w.
  unfold single_live in Hlive; cbn [trace surfaceRef] in Hlive.
  destruct v; unfold draw, Plain.draw, Interactive.draw,
    Interactive.draw_body; unfold_m; simpl;
    destruct (canvasKit p) as [ck|], sref as [s0|]; simpl;
    follow_replies; try (destruct (animate p); simpl);
    destruct Hlive as [Hheld | (bound & Hheld & Hbound)];
    try discriminate Hbound; try (inversion Hbound; subst bound);
    account Hheld.
Qed.

Lemma cleanup_accounted (v : Variant) (w : World) :
  surfaces_accounted w -> surfaces_accounted (exec (cleanup v) w).
Proof.
  intros [Hlive Hbuilt]. open_world w.
  unfold single_live in Hlive; cbn [trace surfaceRef] in Hlive.
  destruct v; unfold cleanup, Plain.cleanup, Interactive.cleanup;
    unfold_m; simpl;
    destruct fref as [h|], sref as [s0|]; simpl;
    follow_replies;
    destruct Hlive as [Hheld | (bound & Hheld & Hbound)];
    try discriminate Hbound; try (inversion Hbound; subst bound);
    account Hheld.
Qed.

Lemma handle_accounted (p : Closure) (i : PointerInput) (w : World) :
  surfaces_accounted w -> surfaces_accounted (exec (handle p i) w).
Proof.
  intros [Hlive Hbuilt]. open_world w.
  unfold single_live in Hlive; cbn [trace surfaceRef] in Hlive.
  destruct i; unfold handle, Interactive.handlePointerDown,
    Interactive.handlePointerMove, Interactive.handlePointerUp,
    Interactive.handlePointerLeave; unfold_m; simpl;
    destruct (interactive p); simpl;
    try (destruct cref as [cv|]; simpl);
    follow_replies;
    repeat match goal with
    | |- context [if ?b then _ else _] => destruct b; simpl
    end;
    follow_replies;
    destruct Hlive as [Hheld | (bound & Hheld & Hbound)];
    account Hheld.
Qed.

(** Operations that leave log and [surfaceRef] alone keep the account. *)
Lemma accounted_same_log (w w' : World) :
  trace w' = trace w -> surfaceRef w' = surfaceRef w ->
  surfaces_accounted w -> surfaces_accounted w'.
Proof.
  unfold surfaces_accounted, single_live.
  intros -> ->. exact (fun H => H).
Qed.

Lemma initSurface_accounted (v : Variant) (p : Closure) (w : World) :
  surfaces_accounted w -> surfaces_accounted (exec (initSurface v p) w).
Proof.
  intros Hacc.
  assert (Hsetup := setupSurface_accounted v p Hacc).
  destruct v; unfold initSurface, Plain.initSurface, Interactive.initSurface;
    rewrite exec_bind; unfold exec in Hsetup; simpl setupSurface in Hsetup.
  - destruct (Plain.setupSurface p w) as [[[s|]|] w']; simpl in *;
      try exact Hsetup. exact (draw_accounted SkiaCanvas p Hsetup).
  - destruct (Interactive.setupSurface p w) as [[[s|]|] w']; simpl in *;
      try exact Hsetup.
    exact (draw_accounted SkiaInteractiveCanvas p Hsetup).
Qed.

Lemma redraw_effect_accounted (v : Variant) (p : Closure) (w : World) :
  surfaces_accounted w -> surfaces_accounted (exec (redraw_effect v p) w).
Proof.
  intros Hacc.
  destruct v; unfold redraw_effect, Plain.redraw_effect,
    Interactive.redraw_effect; rewrite exec_bind; unfold read;
    destruct (isSome (surfaceRef w) && negb (animate p)); try exact Hacc.
  - exact (draw_accounted SkiaCanvas p Hacc).
  - exact (draw_accounted SkiaInteractiveCanvas p Hacc).
Qed.

Lemma tick_accounted (v : Variant) (h : positive) (w : World) :
  surfaces_accounted w -> surfaces_accounted (exec (tick v h) w).
Proof.
  intros Hacc.
  assert (Htaken : surfaces_accounted (exec (take_frame h) w))
    by (apply (accounted_same_log (w := w)); [reflexivity .. | exact Hacc]).
  destruct v; unfold tick, Plain.tick, Interactive.tick; rewrite exec_bind;
    unfold exec in Htaken;
    destruct (take_frame h w) as [[[cb|]|] w'] eqn:Htake; simpl in *;
    try exact Htaken.
  - exact (draw_accounted SkiaCanvas cb Htaken).
  - exact (draw_accounted SkiaInteractiveCanvas cb Htaken).
Qed.

Lemma step_accounted (v : Variant) (o : Op) (w : World) :
  surfaces_accounted w -> surfaces_accounted (exec (step v o) w).
Proof.
  intros Hacc. destruct o; cbn [step].
  - (* setupSurface *)
    rewrite exec_bind.
    assert (Hsetup := setupSurface_accounted v p Hacc). unfold exec in Hsetup.
    destruct (setupSurface v p w) as [[a|] w']; exact Hsetup.
  - exact (draw_accounted v p Hacc).
  - (* mount *)
    rewrite exec_bind.
    assert (Hinit := initSurface_accounted v p Hacc). unfold exec in Hinit.
    destruct (initSurface v p w) as [[a|] w']; simpl in *; try exact Hinit.
    exact (redraw_effect_accounted v p Hinit).
  - (* render *)
    rewrite exec_bind.
    assert (Hclean := cleanup_accounted v Hacc). unfold exec in Hclean.
    destruct (cleanup v w) as [[a|] w']; simpl in *; try exact Hclean.
    rewrite exec_bind.
    assert (Hinit := initSurface_accounted v p Hclean). unfold exec in Hinit.
    destruct (initSurface v p w') as [[a'|] w'']; simpl in *;
      try exact Hinit.
    exact (redraw_effect_accounted v p Hinit).
  - exact (redraw_effect_accounted v p Hacc).
  - exact (cleanup_accounted v Hacc).
  - exact (tick_accounted v h Hacc).
  - (* redraw *)
    destruct v; [exact Hacc|].
    unfold Interactive.redraw. rewrite exec_bind. unfold read.
    destruct (isSome (surfaceRef w)); try exact Hacc.
    exact (draw_accounted SkiaInteractiveCanvas p Hacc).
  - destruct v; [exact Hacc|]. exact (handle_accounted p i Hacc).
  - apply (accounted_same_log (w := w)); [reflexivity .. | exact Hacc].
  - apply (accounted_same_log (w := w)); [reflexivity .. | exact Hacc].
Qed.

Lemma run_accounted (v : Variant) (ops : list Op) :
  forall w, surfaces_accounted w -> surfaces_accounted (run v ops w).
Proof.
  unfold run.
  induction ops as [|o rest IH]; intros w Hacc; simpl.
  - exact Hacc.
  - apply IH. apply step_accounted. exact Hacc.
Qed.

Lemma single_live_at_most_one (w : World) :
  single_live w -> (length (held (trace w)) <= 1)%nat.
Proof.
  intros [Hheld | (s & Hheld & _)]; rewrite Hheld; simpl; lia.
Qed.

(** Closes a goal of [ref_matches_held] once the log is explicit. *)
Ltac match_held Hheld :=
  unfold ref_matches_held;
  cbn [held trace surfaceRef];
  rewrite ?Hheld; cbn [remove_one]; rewrite ?Nat.eqb_refl; reflexivity.

Lemma interactive_setupSurface_matches (p : Closure) (w : World) :
  ref_matches_held w ->
  ref_matches_held (exec (Interactive.setupSurface p) w).
Proof.
  intros Hheld. open_world w.
  unfold ref_matches_held in Hheld; cbn [trace surfaceRef] in Hheld.
  unfold Interactive.setupSurface, Interactive.release_previous,
    Interactive.construct, Interactive.software_attempt; unfold_m; simpl;
    destruct (canvasKit p) as [ck|], cref as [cv|], sref as [s0|]; simpl;
    follow_replies; match_held Hheld.
Qed.

Lemma interactive_draw_matches (p : Closure) (w : World) :
  ref_matches_held w -> ref_matches_held (exec (Interactive.draw p) w).
Proof.
  intros Hheld. open_world w.
  unfold ref_matches_held in Hheld; cbn [trace surfaceRef] in Hheld.
  unfold Interactive.draw, Interactive.draw_body; unfold_m; simpl;
    destruct (canvasKit p) as [ck|], sref as [s0|]; simpl;
    follow_replies; try (destruct (animate p); simpl);
    match_held Hheld.
Qed.

Lemma interactive_cleanup_matches (w : World) :
  ref_matches_held w -> ref_matches_held (exec Interactive.cleanup w).
Proof.
  intros Hheld. open_world w.
  unfold ref_matches_held in Hheld; cbn [trace surfaceRef] in Hheld.
  unfold Interactive.cleanup; unfold_m; simpl;
    destruct fref as [h|], sref as [s0|]; simpl;
    follow_replies; match_held Hheld.
Qed.

Lemma handle_matches (p : Closure) (i : PointerInput) (w : World) :
  ref_matches_held w -> ref_matches_held (exec (handle p i) w).
Proof.
  intros Hheld. open_world w.
  unfold ref_matches_held in Hheld; cbn [trace surfaceRef] in Hheld.
  destruct i; unfold handle, Interactive.handlePointerDown,
    Interactive.handlePointerMove, Interactive.handlePointerUp,
    Interactive.handlePointerLeave; unfold_m; simpl;
    destruct (interactive p); simpl;
    try (destruct cref as [cv|]; simpl);
    follow_replies;
    repeat match goal with
    | |- context [if ?b then _ else _] => destruct b; simpl
    end;
    follow_replies;
    match_held Hheld.
Qed.

(** Operations that leave log and [surfaceRef] alone keep the agreement. *)
Lemma matches_same_log (w w' : World) :
  trace w' = trace w -> surfaceRef w' = surfaceRef w ->
  ref_matches_held w -> ref_matches_held w'.
Proof. unfold ref_matches_held. intros -> ->. exact (fun H => H). Qed.

Lemma interactive_step_matches (o : Op) (w : World) :
  ref_matches_held w ->
  ref_matches_held (exec (step SkiaInteractiveCanvas o) w).
Proof.
  intros Hheld.
  assert (Hdraw : forall p w0, ref_matches_held w0 ->
            ref_matches_held (exec (Interactive.draw p) w0))
    by (intros p0 w0; apply interactive_draw_matches).
  assert (Hinit : forall p w0, ref_matches_held w0 ->
            ref_matches_held (exec (Interactive.initSurface p) w0)).
  { intros p0 w0 H0. unfold Interactive.initSurface. rewrite exec_bind.
    pose proof (@interactive_setupSurface_matches p0 w0 H0) as Hsetup.
    unfold exec in Hsetup.
    destruct (Interactive.setupSurface p0 w0) as [[[s|]|] w']; simpl in *;
      try exact Hsetup. apply Hdraw. exact Hsetup. }
  assert (Heffect : forall p w0, ref_matches_held w0 ->
            ref_matches_held (exec (Interactive.redraw_effect p) w0)).
  { intros p0 w0 H0. unfold Interactive.redraw_effect. rewrite exec_bind.
    unfold read.
    destruct (isSome (surfaceRef w0) && negb (animate p0));
      [apply Hdraw|]; exact H0. }
  destruct o; cbn [step initSurface redraw_effect cleanup tick setupSurface
                   draw].
  - rewrite exec_bind.
    pose proof (@interactive_setupSurface_matches p w Hheld) as Hsetup.
    unfold exec in Hsetup.
    destruct (Interactive.setupSurface p w) as [[a|] w']; exact Hsetup.
  - apply Hdraw. exact Hheld.
  - rewrite exec_bind.
    pose proof (Hinit p w Hheld) as H1. unfold exec in H1.
    destruct (Interactive.initSurface p w) as [[a|] w']; simpl in *;
      try exact H1. apply Heffect. exact H1.
  - rewrite exec_bind.
    pose proof (@interactive_cleanup_matches w Hheld) as H1.
    unfold exec in H1.
    destruct (Interactive.cleanup w) as [[a|] w']; simpl in *;
      try exact H1.
    rewrite exec_bind.
    pose proof (Hinit p w' H1) as H2. unfold exec in H2.
    destruct (Interactive.initSurface p w') as [[a'|] w'']; simpl in *;
      try exact H2. apply Heffect. exact H2.
  - apply Heffect. exact Hheld.
  - apply interactive_cleanup_matches. exact Hheld.
  - unfold Interactive.tick. rewrite exec_bind.
    assert (Htaken : ref_matches_held (exec (take_frame h) w))
      by (apply (@matches_same_log w); [reflexivity .. | exact Hheld]).
    unfold exec in Htaken.
    destruct (take_frame h w) as [[[cb|]|] w'] eqn:Htake; simpl in *;
      try exact Htaken. apply Hdraw. exact Htaken.
  - unfold Interactive.redraw. rewrite exec_bind. unfold read.
    destruct (isSome (surfaceRef w)); [apply Hdraw|]; exact Hheld.
  - apply handle_matches. exact Hheld.
  - apply (@matches_same_log w); [reflexivity .. | exact Hheld].
  - apply (@matches_same_log w); [reflexivity .. | exact Hheld].
Qed.

Lemma interactive_run_matches (ops : list Op) :
  forall w, ref_matches_held w ->
            ref_matches_held (run SkiaInteractiveCanvas ops w).
Proof.
  unfold run.
  induction ops as [|o rest IH]; intros w Hheld; simpl.
  - exact Hheld.
  - apply IH. apply interactive_step_matches. exact Hheld.
Qed.

(** The release that opens [setupSurface] makes no construction call, and
    when it returns the ref is cleared and nothing is held. *)
Lemma release_previous_clears (v : Variant) (w : World) :
  count_calls is_construction
    (new_events w (exec (release_previous v) w)) = 0%nat /\
  (raises (release_previous v) w = false ->
   surfaceRef (exec (release_previous v) w) = None /\
   (single_live w -> held (trace (exec (release_previous v) w)) = [])).
Proof.
  open_world w. unfold single_live; cbn [trace surfaceRef].
  destruct v; unfold release_previous, Plain.release_previous,
    Interactive.release_previous; unfold_m; simpl;
    destruct sref as [s0|]; simpl; follow_replies; log_simpl;
    (split; [reflexivity|]); intros Hreturns; try discriminate Hreturns;
    (split; [reflexivity|]);
    intros [Hheld | (bound & Hheld & Hbound)];
    try discriminate Hbound; try (inversion Hbound; subst bound);
    cbn [held]; rewrite ?Hheld; cbn [remove_one]; rewrite ?Nat.eqb_refl;
    reflexivity.
Qed.

(** [setupSurface] is its release followed by its construction. *)
Lemma setupSurface_in_two_parts (v : Variant) (p : Closure) (w : World) :
  canvasKit p <> None -> canvasRef w <> None ->
  setupSurface v p w = (release_previous v ;; construct v p) w.
Proof.
  intros Hkit Hcanvas.
  destruct v; unfold setupSurface, Plain.setupSurface,
    Interactive.setupSurface, release_previous, construct;
    unfold bind at 1, read;
    destruct (canvasKit p); try contradiction;
    destruct (canvasRef w); try contradiction; reflexivity.
Qed.

(** When the release raises, [setupSurface] constructs nothing. *)
Lemma failed_release_constructs_nothing
  (v : Variant) (p : Closure) (w : World) :
  raises (release_previous v) w = true ->
  count_calls is_construction
    (new_events w (exec (setupSurface v p) w)) = 0%nat.
Proof.
  open_world w.
  destruct v; unfold setupSurface, Plain.setupSurface,
    Interactive.setupSurface, release_previous, Plain.release_previous,
    Interactive.release_previous; unfold_m; simpl;
    destruct (canvasKit p) as [ck|], cref as [cv|], sref as [s0|]; simpl;
    follow_replies; log_simpl; intros Hraises;
    try discriminate Hraises; reflexivity.
Qed.

(** C4. In either component, from a state in which the log and the registry
    agree (in particular from a fresh mount), after any sequence of
    operations - [setupSurface] calls with any props, interleaved in any way
    with paints, frames, renders, unmounts, redraws, pointer events and
    changes of screen or canvas element - at most one surface is held: none,
    or exactly the one in [surfaceRef].  Every construction call was made
    with nothing held.  In the interactive canvas the agreement is exact:
    [surfaceRef] is null when nothing is held.  And in any world
    [setupSurface] is a release followed by a construction: the release
    makes no construction call, and construction starts only once it
    returned, with the surface held before handed to [delete] (whether or
    not [delete] raised, in the interactive canvas) and [surfaceRef]
    cleared; when the release raises, nothing is constructed. *)
Theorem at_most_one_live_surface
  (v : Variant) (ops : list Op) (w : World)
  (Hstart : surfaces_accounted w) :
  (length (held (trace (run v ops w))) <= 1)%nat /\
  single_live (run v ops w) /\
  built_on_empty (trace (run v ops w)) /\
  (v = SkiaInteractiveCanvas -> ref_matches_held w ->
   ref_matches_held (run v ops w)) /\
  (forall p w0,
     let released := exec (release_previous v) w0 in
     (canvasKit p <> None -> canvasRef w0 <> None ->
      setupSurface v p w0 = (release_previous v ;; construct v p) w0) /\
     count_calls is_construction (new_events w0 released) = 0%nat /\
     (raises (release_previous v) w0 = false ->
      surfaceRef released = None /\
      (single_live w0 -> held (trace released) = [])) /\
     (raises (release_previous v) w0 = true ->
      count_calls is_construction
        (new_events w0 (exec (setupSurface v p) w0)) = 0%nat)).
Proof.
  destruct (run_accounted v ops Hstart) as [Hlive Hbuilt].
  split; [apply single_live_at_most_one; exact Hlive|].
  split; [exact Hlive|]. split; [exact Hbuilt|].
  split; [intros ->; apply interactive_run_matches|].
  intros p w0 released. subst released.
  split; [apply setupSurface_in_two_parts|].
  split; [apply release_previous_clears|].
  split; [apply release_previous_clears|].
  apply failed_release_constructs_nothing.
Qed.

Lemma at_most_one_live_surface_witness :
  (length
     (held (trace
        (run SkiaInteractiveCanvas
           [OpMount (Sample.props (num 400) (num 300) true);
            OpFrame 1%positive;
            OpSetupSurface (Sample.props (num 800) (num 600) true);
            OpSetupSurface (Sample.props (num 400) (num 300) true);
            OpUnmount]
           (Sample.mounted (num 2) Sample.no_webgl)))) <= 1)%nat.
Proof.
  assert (Hstart : surfaces_accounted
                     (Sample.mounted (num 2) Sample.no_webgl))
    by (split; [left; reflexivity | exact I]).
  exact (proj1 (@at_most_one_live_surface SkiaInteractiveCanvas
           [OpMount (Sample.props (num 400) (num 300) true);
            OpFrame 1%positive;
            OpSetupSurface (Sample.props (num 800) (num 600) true);
            OpSetupSurface (Sample.props (num 400) (num 300) true);
            OpUnmount]
           (Sample.mounted (num 2) Sample.no_webgl) Hstart)).
Defined.

(** Two acquisitions in a row on a healthy engine: the first surface is
    deleted before the second is built, and only the second is held. *)
Example second_acquisition_replaces_first :
  let p := Sample.props (num 400) (num 300) false in
  let w := run SkiaCanvas [OpSetupSurface p; OpSetupSurface p]
             (Sample.mounted (num 2) Sample.healthy) in
  held (trace w) = [3%nat] /\ surfaceRef w = Some 3%nat /\
  map snd (trace w)
  = [Value (VSurface 3%nat); Value VUndefined; Value (VSurface 1%nat)].
Proof. repeat split; reflexivity. Qed.

(* ------------------------------------------------------------------------- *)
(** ** One render-loop chain *)

(** [setupSurface] and the pointer handlers leave queue and handle alone. *)
Lemma setupSurface_queue (v : Variant) (p : Closure) (w : World) :
  pending (exec (setupSurface v p) w) = pending w /\
  animationFrameRef (exec (setupSurface v p) w) = animationFrameRef w.
Proof.
  open_world w.
  destruct v; unfold setupSurface, Plain.setupSurface,
    Plain.release_previous, Plain.construct,
    Interactive.setupSurface, Interactive.release_previous,
    Interactive.construct, Interactive.software_attempt; unfold_m; simpl;
    destruct (canvasKit p) as [ck|], cref as [cv|], sref as [s0|]; simpl;
    follow_replies; split; reflexivity.
Qed.

Lemma handle_queue (p : Closure) (i : PointerInput) (w : World) :
  pending (exec (handle p i) w) = pending w /\
  animationFrameRef (exec (handle p i) w) = animationFrameRef w.
Proof.
  open_world w.
  destruct i; unfold handle, Interactive.handlePointerDown,
    Interactive.handlePointerMove, Interactive.handlePointerUp,
    Interactive.handlePointerLeave; unfold_m; simpl;
    destruct (interactive p); simpl;
    try (destruct cref as [cv|]; simpl);
    follow_replies;
    repeat match goal with
    | |- context [if ?b then _ else _] => destruct b; simpl
    end;
    follow_replies; split; reflexivity.
Qed.

Lemma one_frame_same_queue (w w' : World) :
  pending w' = pending w -> animationFrameRef w' = animationFrameRef w ->
  one_frame w -> one_frame w'.
Proof. unfold one_frame. intros -> ->. exact (fun H => H). Qed.

(** The cleanup cancels the frame the ref remembers; when that was the only
    one, the queue is empty afterwards, even if [delete] then raises. *)
Lemma cleanup_empties_queue (v : Variant) (w : World) :
  one_frame w -> pending (exec (cleanup v) w) = [].
Proof.
  intros Hone. open_world w. unfold one_frame in Hone; simpl in Hone.
  destruct v; unfold cleanup, Plain.cleanup, Interactive.cleanup;
    unfold_m; simpl;
    destruct Hone as [Hq | (h & cb & Hq & Hf)]; subst;
    try destruct fref as [h'|]; destruct sref as [s0|]; simpl;
    follow_replies; rewrite ?Pos.eqb_refl; reflexivity.
Qed.

(** A paint started with an empty queue leaves at most its own request. *)
Lemma draw_from_empty_queue (v : Variant) (p : Closure) (w : World) :
  pending w = [] -> one_frame (exec (draw v p) w).
Proof.
  intros Hq. open_world w. subst queue.
  destruct v; unfold draw, Plain.draw, Interactive.draw,
    Interactive.draw_body; unfold_m; simpl;
    destruct (canvasKit p) as [ck|], sref as [s0|]; simpl;
    follow_replies; try (destruct (animate p); simpl); queue_auto.
Qed.

(** A paint outside continuous mode requests nothing. *)
Lemma still_draw_queue (v : Variant) (p : Closure) (w : World) :
  animate p = false ->
  pending (exec (draw v p) w) = pending w /\
  animationFrameRef (exec (draw v p) w) = animationFrameRef w.
Proof.
  intros Hstill. open_world w.
  destruct v; unfold draw, Plain.draw, Interactive.draw,
    Interactive.draw_body; unfold_m; rewrite Hstill; simpl;
    destruct (canvasKit p) as [ck|], sref as [s0|]; simpl;
    follow_replies; split; reflexivity.
Qed.

Lemma initSurface_from_empty_queue (v : Variant) (p : Closure) (w : World) :
  pending w = [] -> one_frame (exec (initSurface v p) w).
Proof.
  intros Hq.
  destruct (setupSurface_queue v p w) as [Hpend _].
  unfold exec in Hpend. rewrite Hq in Hpend.
  destruct v; unfold initSurface, Plain.initSurface, Interactive.initSurface;
    rewrite exec_bind; simpl setupSurface in Hpend.
  - destruct (Plain.setupSurface p w) as [[[s|]|] w']; simpl in *;
      try (left; exact Hpend).
    exact (@draw_from_empty_queue SkiaCanvas p w' Hpend).
  - destruct (Interactive.setupSurface p w) as [[[s|]|] w']; simpl in *;
      try (left; exact Hpend).
    exact (@draw_from_empty_queue SkiaInteractiveCanvas p w' Hpend).
Qed.

(** The second effect paints only outside continuous mode. *)
Lemma redraw_effect_one_frame (v : Variant) (p : Closure) (w : World) :
  one_frame w -> one_frame (exec (redraw_effect v p) w).
Proof.
  intros Hone.
  destruct v; unfold redraw_effect, Plain.redraw_effect,
    Interactive.redraw_effect; rewrite exec_bind; unfold read;
    destruct (isSome (surfaceRef w)); simpl; try exact Hone;
    destruct (animate p) eqn:Hanimate; simpl; try exact Hone.
  - destruct (@still_draw_queue SkiaCanvas p w Hanimate) as [Hp Hf].
    exact (@one_frame_same_queue _ _ Hp Hf Hone).
  - destruct (@still_draw_queue SkiaInteractiveCanvas p w Hanimate) as [Hp Hf].
    exact (@one_frame_same_queue _ _ Hp Hf Hone).
Qed.

(** A frame that runs was taken off the queue first: its paint starts with
    an empty queue.  A handle that is not queued runs nothing. *)
Lemma tick_one_frame (v : Variant) (h : positive) (w : World) :
  one_frame w -> one_frame (exec (tick v h) w).
Proof.
  intros Hone.
  assert (Htick : exec (tick v h) w
                  = match take_frame h w with
                    | (Ok (Some cb), w') => exec (draw v cb) w'
                    | (_, w') => w'
                    end).
  { destruct v; unfold tick, Plain.tick, Interactive.tick;
      rewrite exec_bind; destruct (take_frame h w) as [[[cb|]|] w'];
      reflexivity. }
  rewrite Htick. clear Htick. unfold take_frame.
  destruct Hone as [Hq | (h' & cb & Hq & Hf)]; rewrite Hq;
    cbn [find filter fst option_map].
  - left. reflexivity.
  - destruct (Pos.eqb h' h) eqn:Hsame; cbn [negb option_map snd].
    + apply draw_from_empty_queue. reflexivity.
    + right. exists h', cb. split; [reflexivity | exact Hf].
Qed.

Lemma step_one_frame (v : Variant) (o : Op) (w : World) :
  self_driven o = true -> one_frame w -> one_frame (exec (step v o) w).
Proof.
  intros Hself Hone. destruct o; try discriminate Hself; cbn [step].
  - (* setupSurface *)
    rewrite exec_bind.
    destruct (setupSurface_queue v p w) as [Hp Hf]. unfold exec in Hp, Hf.
    destruct (setupSurface v p w) as [[a|] w']; simpl in *;
      exact (@one_frame_same_queue _ _ Hp Hf Hone).
  - (* render: cleanup, then both effects *)
    rewrite exec_bind.
    assert (Hempty := cleanup_empties_queue v Hone). unfold exec in Hempty.
    destruct (cleanup v w) as [[a|] w']; simpl in *;
      try (left; exact Hempty).
    rewrite exec_bind.
    assert (Hinit := initSurface_from_empty_queue v p w' Hempty).
    unfold exec in Hinit.
    destruct (initSurface v p w') as [[a'|] w'']; simpl in *;
      try exact Hinit.
    exact (@redraw_effect_one_frame v p _ Hinit).
  - exact (@redraw_effect_one_frame v p _ Hone).
  - left. exact (@cleanup_empties_queue v _ Hone).
  - exact (@tick_one_frame v h _ Hone).
  - destruct v; [exact Hone|].
    destruct (handle_queue p i w) as [Hp Hf].
    exact (@one_frame_same_queue _ _ Hp Hf Hone).
  - exact Hone.
  - exact Hone.
Qed.

(** X5.
    What React and the browser do on their own keeps a single chain: after a
    mount, any sequence of renders, repaints, frames, pointer events and
    unmounts leaves at most one frame queued, in either component. *)
Lemma self_driven_life_has_one_chain
  (v : Variant) (p : Closure) (ops : list Op) (w : World) :
  pending w = [] -> forallb self_driven ops = true ->
  one_frame (run v (OpMount p :: ops) w).
Proof.
  intros Hq Hself. unfold run. cbn [map exec_all step].
  assert (Hmount : one_frame
            (exec (initSurface v p ;; redraw_effect v p) w)).
  { rewrite exec_bind.
    assert (Hinit := initSurface_from_empty_queue v p w Hq).
    unfold exec in Hinit.
    destruct (initSurface v p w) as [[a|] w']; simpl in *; try exact Hinit.
    exact (@redraw_effect_one_frame v p _ Hinit). }
  revert Hself Hmount.
  generalize (exec (initSurface v p ;; redraw_effect v p) w).
  induction ops as [|o rest IH]; intros w0 Hself Hone; simpl.
  - exact Hone.
  - simpl in Hself. apply andb_true_iff in Hself. destruct Hself as [Ho Hrest].
    apply IH; [exact Hrest|]. apply step_one_frame; assumption.
Qed.

(** C8. [redraw()] on an interactive canvas in continuous mode starts a
    second chain without stopping the first.  After the mount one frame is
    queued; after [redraw()] two are; each reschedules itself when it runs,
    so two stay queued, and [animationFrameRef] remembers only the later
    one: an unmount cancels that one and leaves the other queued. *)
Theorem redraw_while_animating_queues_a_second_frame :
  let p := Sample.props (num 400) (num 300) true in
  let w := Sample.mounted (num 2) Sample.healthy in
  let queued (ops : list Op) :=
    map fst (pending (run SkiaInteractiveCanvas ops w)) in
  queued [OpMount p] = [1%positive] /\
  queued [OpMount p; OpRedraw p] = [1%positive; 2%positive] /\
  queued [OpMount p; OpRedraw p; OpFrame 1%positive; OpFrame 2%positive]
  = [3%positive; 4%positive] /\
  animationFrameRef
    (run SkiaInteractiveCanvas
       [OpMount p; OpRedraw p; OpFrame 1%positive; OpFrame 2%positive] w)
  = Some 4%positive /\
  queued [OpMount p; OpRedraw p; OpFrame 1%positive; OpFrame 2%positive;
          OpUnmount]
  = [3%positive].
Proof. repeat split; vm_compute; reflexivity. Qed.

(* ------------------------------------------------------------------------- *)
(** ** The scenarios, run *)

(** Scenario 2: hardware construction raises, software construction works
    at the first attempt; the two paints of a mount (one per effect) call
    the callback once each and end with a flush. *)
Example software_fallback_then_paint :
  let p := Sample.props (num 400) (num 300) false in
  let w := run SkiaInteractiveCanvas [OpMount p]
             (Sample.mounted (num 2) Sample.no_webgl) in
  surfaceRef w = Some 3%nat /\
  count_calls is_MakeSWCanvasSurface (trace w) = 1%nat /\
  count_calls is_OnDraw (trace w) = 2%nat /\
  hd_error (trace w) = Some (SurfaceFlush 3%nat, Value VUndefined).
Proof. repeat split; reflexivity. Qed.

(** At pixel ratio 2 a 400x300 canvas asks for an 800x600 buffer and the
    callback still sees 400x300. *)
Example hidpi_build_and_paint :
  let p := Sample.props (num 400) (num 300) false in
  let w := Sample.mounted (num 2) Sample.healthy in
  map fst (new_events w (exec (setupSurface SkiaCanvas p) w))
  = [MakeCanvasSurface
       {| canvas_width := num 800;
          canvas_height := num 600;
          boundingClientRect := Sample.rect0 |}] /\
  In (OnDraw (num 400) (num 300) None None)
     (map fst (trace (run SkiaCanvas [OpMount p] w))).
Proof.
  split.
  - reflexivity.
  - cbn. tauto.
Qed.

(** A press, then a release: pressed with pointer 7 recorded, then neither. *)
Example press_then_release :
  let p := Sample.props (num 400) (num 300) false in
  let w := Sample.hidpi (num 400) (num 300) Sample.healthy in
  let pressed :=
    run SkiaInteractiveCanvas
      [OpPointer p (PointerDown (Sample.pointer (num 120) (num 80) 7))] w in
  let released :=
    run SkiaInteractiveCanvas
      [OpPointer p (PointerUp (Sample.pointer (num 120) (num 80) 7))]
      pressed in
  (isPressed (state pressed) = true /\
   activePointerId (state pressed) = Some 7%Z) /\
  (isPressed (state released) = false /\
   activePointerId (state released) = None).
Proof. repeat split; reflexivity. Qed.

(* ------------------------------------------------------------------------- *)
(** * Further properties *)

(** ** Arithmetic on numbers, through the rationals underneath *)

Lemma this_plus (a b : Qc) : (this (a + b) == this a + this b)%Q.
Proof. unfold Qcplus, Q2Qc; cbn [this]. apply Qred_correct. Qed.

Lemma this_mult (a b : Qc) : (this (a * b) == this a * this b)%Q.
Proof. unfold Qcmult, Q2Qc; cbn [this]. apply Qred_correct. Qed.

Lemma this_opp (a : Qc) : (this (- a) == - this a)%Q.
Proof. unfold Qcopp, Q2Qc; cbn [this]. apply Qred_correct. Qed.

Lemma this_minus (a b : Qc) : (this (a - b) == this a - this b)%Q.
Proof. unfold Qcminus. rewrite this_plus, this_opp. reflexivity. Qed.

Lemma this_Q2Qc (q : Q) : (this (Q2Qc q) == q)%Q.
Proof. unfold Q2Qc; cbn [this]. apply Qred_correct. Qed.

Lemma this_num (z : Z) : (this (num z) == inject_Z z)%Q.
Proof. unfold num. apply this_Q2Qc. Qed.

Lemma Qc_eq_this (a b : Qc) : a = b <-> (this a == this b)%Q.
Proof. split; [intros ->; reflexivity | apply Qc_is_canon]. Qed.

(** Turns a goal about numbers built with [+], [-], [*] and constants into
    one about rationals, for [lra] and [nra]. *)
Ltac to_rationals :=
  unfold Qcle, Qclt in *;
  repeat match goal with
  | H : @eq Qc _ _ |- _ => apply Qc_eq_this in H
  | H : ~ @eq Qc _ _ |- _ => rewrite Qc_eq_this in H
  | |- @eq Qc _ _ => apply Qc_eq_this
  | |- ~ @eq Qc _ _ => rewrite Qc_eq_this
  end;
  repeat rewrite ?this_plus, ?this_minus, ?this_mult, ?this_opp,
    ?this_num, ?this_Q2Qc in *;
  unfold inject_Z in *.

Lemma num_leb_iff (a b : Qc) : num_leb a b = true <-> a <= b.
Proof. unfold num_leb. apply Qle_bool_iff. Qed.

Lemma num_leb_false_iff (a b : Qc) : num_leb a b = false <-> b < a.
Proof.
  rewrite <- not_true_iff_false, num_leb_iff.
  split; [apply Qcnot_le_lt | apply Qclt_not_le].
Qed.

Lemma num_ltb_iff (a b : Qc) : num_ltb a b = true <-> a < b.
Proof.
  unfold num_ltb. rewrite negb_true_iff. apply num_leb_false_iff.
Qed.

Lemma num_ltb_false_iff (a b : Qc) : num_ltb a b = false <-> b <= a.
Proof. unfold num_ltb. rewrite negb_false_iff. apply num_leb_iff. Qed.

(* ------------------------------------------------------------------------- *)
(** ** More on acquisition and painting *)

(** X1.
    [setupSurface] of the interactive canvas returns, whatever the engine
    does: every raise of [delete] and of the two constructors is caught. *)
Theorem interactive_setupSurface_never_raises (p : Closure) (w : World) :
  exists r, fst (Interactive.setupSurface p w) = Ok r.
Proof.
  open_world w.
  unfold Interactive.setupSurface, Interactive.release_previous,
    Interactive.construct, Interactive.software_attempt; unfold_m;
    simpl;
    destruct (canvasKit p) as [ck|], cref as [cv|], sref as [s0|]; simpl;
    follow_replies; eexists; reflexivity.
Qed.

(** X2.
    With engine and canvas present, what [setupSurface] returns is what
    [surfaceRef] holds afterwards: the new surface, or null with the ref
    cleared. *)
Theorem setupSurface_returns_what_it_stores
  (v : Variant) (p : Closure) (w : World) (r : option Surface)
  (Hkit : canvasKit p <> None)
  (Hcanvas : canvasRef w <> None)
  (Hreturns : fst (setupSurface v p w) = Ok r) :
  surfaceRef (exec (setupSurface v p) w) = r.
Proof.
  revert Hreturns. open_world w.
  destruct v; unfold setupSurface, Plain.setupSurface,
    Plain.release_previous, Plain.construct,
    Interactive.setupSurface, Interactive.release_previous,
    Interactive.construct, Interactive.software_attempt; unfold_m;
    simpl;
    destruct (canvasKit p) as [ck|]; try congruence;
    destruct cref as [cv|]; try congruence;
    destruct sref as [s0|]; simpl;
    follow_replies; intros Hreturns; inversion Hreturns; reflexivity.
Qed.

Lemma setupSurface_returns_what_it_stores_witness :
  surfaceRef (exec (setupSurface SkiaInteractiveCanvas
                      (Sample.props (num 400) (num 300) false))
                (Sample.mounted (num 2) Sample.no_webgl_null_software))
  = None.
Proof.
  apply (@setupSurface_returns_what_it_stores SkiaInteractiveCanvas
           (Sample.props (num 400) (num 300) false)
           (Sample.mounted (num 2) Sample.no_webgl_null_software) None).
  - discriminate.
  - discriminate.
  - reflexivity.
Defined.

(** Without engine or canvas, [setupSurface] returns null and touches
    nothing: a surface bound earlier stays bound and is not deleted. *)
Lemma setupSurface_without_engine_is_noop
  (v : Variant) (p : Closure) (w : World)
  (Hmissing : canvasKit p = None \/ canvasRef w = None) :
  setupSurface v p w = (Ok None, w).
Proof.
  destruct v; unfold setupSurface, Plain.setupSurface,
    Plain.release_previous, Plain.construct,
    Interactive.setupSurface; unfold_m;
    destruct Hmissing as [Hk | Hc]; rewrite ?Hk, ?Hc;
    destruct (canvasKit p); reflexivity.
Qed.

(** X3.
    One [draw] invokes the caller's callback at most once, in either
    component and whatever raises. *)
Theorem draw_calls_back_at_most_once
  (v : Variant) (p : Closure) (w : World) :
  (count_calls is_OnDraw (new_events w (exec (draw v p) w)) <= 1)%nat.
Proof.
  open_world w.
  destruct v; unfold draw, Plain.draw, Interactive.draw,
    Interactive.draw_body; unfold_m; simpl;
    destruct (canvasKit p) as [ck|], sref as [s0|]; simpl;
    follow_replies; try (destruct (animate p); simpl);
    log_simpl; unfold count_calls; simpl; lia.
Qed.

(** X4.
    On a healthy engine (nothing raises, hardware construction hands out a
    surface) a mount paints once per effect: the callback runs twice when
    the canvas does not animate, once when it does (the second effect then
    leaves painting to the loop). *)
Theorem mount_paints_once_per_effect
  (v : Variant) (p : Closure) (w : World)
  (Hkit : canvasKit p <> None)
  (Hcanvas : canvasRef w <> None)
  (Hfresh : surfaceRef w = None)
  (Hfine : forall t c, respond w t c <> Raise)
  (Hsurface : forall t cv, exists s,
      respond w t (MakeCanvasSurface cv) = Value (VSurface s)) :
  count_calls is_OnDraw (new_events w (exec (step v (OpMount p)) w))
  = if animate p then 1%nat else 2%nat.
Proof.
  open_world w. subst sref.
  destruct v; cbn [step initSurface redraw_effect];
    unfold Plain.initSurface, Interactive.initSurface,
      Plain.redraw_effect, Interactive.redraw_effect,
      Plain.setupSurface, Plain.release_previous, Plain.construct,
      Interactive.setupSurface, Interactive.release_previous,
      Interactive.construct, Interactive.software_attempt,
      Plain.draw, Interactive.draw, Interactive.draw_body; unfold_m; simpl;
    (destruct (canvasKit p) as [ck|]; [|congruence]);
    (destruct cref as [cv|]; [|congruence]); simpl;
    (match goal with
     | |- context [rsp ?t (MakeCanvasSurface ?c)] =>
         destruct (Hsurface t c) as [s Hs]; rewrite Hs; simpl
     end);
    destruct (animate p); simpl;
    repeat (split_reply;
            [match goal with H : rsp _ _ = Raise |- _ =>
               contradiction (Hfine _ _ H) end|]);
    log_simpl; reflexivity.
Qed.

Lemma mount_paints_once_per_effect_witness :
  count_calls is_OnDraw
    (new_events (Sample.mounted (num 2) Sample.healthy)
       (exec (step SkiaCanvas
                (OpMount (Sample.props (num 400) (num 300) false)))
          (Sample.mounted (num 2) Sample.healthy)))
  = 2%nat.
Proof.
  apply (@mount_paints_once_per_effect SkiaCanvas
           (Sample.props (num 400) (num 300) false)
           (Sample.mounted (num 2) Sample.healthy)).
  - discriminate.
  - discriminate.
  - reflexivity.
  - intros t c. destruct c; discriminate.
  - intros t cv. eexists. reflexivity.
Defined.

Lemma self_driven_life_has_one_chain_witness :
  one_frame
    (run SkiaInteractiveCanvas
       (OpMount (Sample.props (num 400) (num 300) true)
        :: [OpFrame 1%positive;
            OpRender (Sample.props (num 800) (num 600) true);
            OpFrame 3%positive;
            OpRepaint (Sample.props (num 800) (num 600) true)])
       (Sample.mounted (num 2) Sample.healthy)).
Proof.
  apply (@self_driven_life_has_one_chain SkiaInteractiveCanvas
           (Sample.props (num 400) (num 300) true)
           [OpFrame 1%positive;
            OpRender (Sample.props (num 800) (num 600) true);
            OpFrame 3%positive;
            OpRepaint (Sample.props (num 800) (num 600) true)]
           (Sample.mounted (num 2) Sample.healthy)).
  - reflexivity.
  - reflexivity.
Defined.

(* ------------------------------------------------------------------------- *)
(** ** More on the pointer handlers *)

(** X6.
    With [interactive] false every pointer handler returns at once: no
    state change, no pointer capture, no callback. *)
Theorem non_interactive_canvas_ignores_pointer
  (p : Closure) (i : PointerInput) (w : World)
  (Hoff : interactive p = false) :
  handle p i w = (Ok tt, w).
Proof.
  destruct i; unfold handle, Interactive.handlePointerDown,
    Interactive.handlePointerMove, Interactive.handlePointerUp,
    Interactive.handlePointerLeave; unfold_m; rewrite Hoff; reflexivity.
Qed.

Lemma non_interactive_canvas_ignores_pointer_witness :
  handle
    {| canvasKit := Some TheCanvasKit; typeface := None;
       width := num 400; height := num 300; animate := false;
       interactive := false;
       interactionState := Interactive.initialInteractionState;
       onPointerDown := true; onPointerMove := true;
       onPointerUp := true; onPointerLeave := true |}
    (PointerDown (Sample.pointer (num 120) (num 80) 7))
    (Sample.hidpi (num 400) (num 300) Sample.healthy)
  = (Ok tt, Sample.hidpi (num 400) (num 300) Sample.healthy).
Proof.
  apply non_interactive_canvas_ignores_pointer. reflexivity.
Defined.

(** X7.
    [handlePointerUp] on an interactive canvas asks whether the pointer is
    captured and releases it exactly when the answer is truthy; the state
    is unpressed afterwards even when the DOM or the callback raises. *)
Theorem pointer_up_releases_only_a_held_capture
  (p : Closure) (e : PointerEvent) (w : World) (cv : HTMLCanvasElement)
  (v : Val)
  (Hon : interactive p = true)
  (Hcanvas : canvasRef w = Some cv)
  (Hasked : respond w (trace w) (HasPointerCapture (ev_pointerId e))
            = Value v) :
  let after := exec (Interactive.handlePointerUp p e) w in
  count_calls is_ReleasePointerCapture (new_events w after)
  = (if truthy v then 1%nat else 0%nat) /\
  isPressed (state after) = false /\
  activePointerId (state after) = None.
Proof.
  open_world w. subst cref. cbn zeta.
  unfold Interactive.handlePointerUp; unfold_m; rewrite Hon; simpl.
  rewrite Hasked; simpl.
  destruct (truthy v); simpl; follow_replies;
    destruct (onPointerUp p); simpl; follow_replies;
    log_simpl; repeat split; reflexivity.
Qed.

Lemma pointer_up_releases_only_a_held_capture_witness :
  count_calls is_ReleasePointerCapture
    (new_events (Sample.hidpi (num 400) (num 300) Sample.healthy)
       (exec (Interactive.handlePointerUp
                (Sample.props (num 400) (num 300) false)
                (Sample.pointer (num 120) (num 80) 7))
          (Sample.hidpi (num 400) (num 300) Sample.healthy)))
  = 1%nat.
Proof.
  apply (@pointer_up_releases_only_a_held_capture
           (Sample.props (num 400) (num 300) false)
           (Sample.pointer (num 120) (num 80) 7)
           (Sample.hidpi (num 400) (num 300) Sample.healthy)
           (Sample.hidpi_element (num 400) (num 300))
           (VBool true)).
  - reflexivity.
  - reflexivity.
  - reflexivity.
Defined.

(* ------------------------------------------------------------------------- *)
(** ** Hit tests *)

Lemma scan_first_match {A T} (inside : A -> bool)
  (items : list (A * option T)) :
  forall i,
    match Hit.index (Hit.scan (fun it => inside (fst it)) snd items i) with
    | Some k =>
        (i <= k)%nat /\
        Hit.hit (Hit.scan (fun it => inside (fst it)) snd items i) = true /\
        (exists a,
            nth_error items (k - i)
            = Some (a, Hit.data
                         (Hit.scan (fun it => inside (fst it)) snd items i))
            /\ inside a = true) /\
        (forall j a d, (j < k - i)%nat -> nth_error items j = Some (a, d) ->
                       inside a = false)
    | None =>
        Hit.hit (Hit.scan (fun it => inside (fst it)) snd items i) = false /\
        Hit.data (Hit.scan (fun it => inside (fst it)) snd items i) = None /\
        (forall a d, In (a, d) items -> inside a = false)
    end.
Proof.
  induction items as [|[a d] rest IH]; intros i; cbn [Hit.scan fst snd].
  - cbn. repeat split. intros a d [].
  - destruct (inside a) eqn:Hin; cbn [Hit.index Hit.hit Hit.data].
    + split; [lia|]. split; [reflexivity|]. rewrite Nat.sub_diag. split.
      * exists a. split; [reflexivity | exact Hin].
      * intros j a' d' Hj. lia.
    + specialize (IH (S i)).
      destruct (Hit.index
                  (Hit.scan (fun it => inside (fst it)) snd rest (S i)))
        as [k|].
      * destruct IH as (Hle & Hhit & (a' & Hnth & Ha') & Hearlier).
        split; [lia|]. split; [exact Hhit|].
        replace (k - i)%nat with (S (k - S i)) by lia. split.
        -- exists a'. split; [exact Hnth | exact Ha'].
        -- intros j a'' d'' Hj Hnthj. destruct j as [|j].
           ++ cbn in Hnthj. inversion Hnthj; subst. exact Hin.
           ++ cbn in Hnthj. apply (Hearlier j a'' d''); [lia | exact Hnthj].
      * destruct IH as (Hhit & Hdata & Hnone).
        split; [exact Hhit|]. split; [exact Hdata|].
        intros a' d' [Heq | Hin'].
        -- inversion Heq; subst. exact Hin.
        -- exact (Hnone a' d' Hin').
Qed.

Lemma scan_from_zero {A T} (inside : A -> bool)
  (items : list (A * option T)) :
  first_match inside items
    (Hit.scan (fun it => inside (fst it)) snd items 0).
Proof.
  unfold first_match.
  pose proof (scan_first_match inside items 0) as H.
  destruct (Hit.index (Hit.scan (fun it => inside (fst it)) snd items 0))
    as [k|].
  - rewrite Nat.sub_0_r in H. destruct H as (_ & Hhit & Hat & Hearlier).
    split; [exact Hhit|]. split; assumption.
  - exact H.
Qed.

(** X11.
    The rectangle, circle and polygon hit tests return the first shape of
    their list that contains the point, with its index and its data, and a
    miss exactly when no shape contains it. *)
Theorem hit_tests_return_first_match {T}
  (rects : list (Geometry.Bounds * option T))
  (circles : list (Geometry.Circle * option T))
  (polygons : list (list Point * option T)) (x y : Qc) :
  let point := {| px := x; py := y |} in
  first_match (Geometry.pointInBounds point) rects
    (Hit.createRectHitTest rects x y) /\
  first_match (Geometry.pointInCircle point) circles
    (Hit.createCircleHitTest circles x y) /\
  first_match (Geometry.pointInPolygon point) polygons
    (Hit.createPolygonHitTest polygons x y).
Proof.
  cbn zeta. repeat split; apply scan_from_zero.
Qed.

(** A combined test returns a miss or a result that is a hit. *)
Lemma combine_hit_or_miss {T} (tests : list (Hit.HitTestFunction T))
  (x y : Qc) :
  Hit.combineHitTests tests x y = Hit.miss \/
  Hit.hit (Hit.combineHitTests tests x y) = true.
Proof.
  induction tests as [|t rest IH]; cbn [Hit.combineHitTests].
  - left. reflexivity.
  - destruct (Hit.hit (t x y)) eqn:Hhit; [right; exact Hhit | exact IH].
Qed.

(** X12.
    Combining is flat: combining two lists of tests one after the other is
    combining the two combined tests; combining nothing always misses. *)
Theorem combineHitTests_is_flat {T}
  (first second : list (Hit.HitTestFunction T)) (x y : Qc) :
  Hit.combineHitTests (first ++ second) x y
  = Hit.combineHitTests
      [Hit.combineHitTests first; Hit.combineHitTests second] x y /\
  Hit.combineHitTests (@nil (Hit.HitTestFunction T)) x y = Hit.miss.
Proof.
  split; [|reflexivity].
  induction first as [|t rest IH].
  - cbn [app Hit.combineHitTests Hit.hit Hit.miss].
    destruct (combine_hit_or_miss second x y) as [Hmiss | Hhit].
    + rewrite Hmiss. reflexivity.
    + rewrite Hhit. reflexivity.
  - cbn [app Hit.combineHitTests] in *.
    destruct (Hit.hit (t x y)) eqn:Hhit.
    + rewrite Hhit. reflexivity.
    + exact IH.
Qed.

Lemma scan_shift {A T} (inside : A -> bool) (dataOf : A -> option T)
  (items : list A) :
  forall i,
    Hit.hit (Hit.scan inside dataOf items (S i))
    = Hit.hit (Hit.scan inside dataOf items i) /\
    Hit.data (Hit.scan inside dataOf items (S i))
    = Hit.data (Hit.scan inside dataOf items i) /\
    Hit.index (Hit.scan inside dataOf items (S i))
    = option_map S (Hit.index (Hit.scan inside dataOf items i)).
Proof.
  induction items as [|a rest IH]; intros i; cbn [Hit.scan].
  - repeat split.
  - destruct (inside a); [repeat split | apply IH].
Qed.

Lemma scan_app {A T} (inside : A -> bool) (dataOf : A -> option T)
  (a b : list A) :
  forall i,
    Hit.scan inside dataOf (a ++ b) i
    = if Hit.hit (Hit.scan inside dataOf a i)
      then Hit.scan inside dataOf a i
      else Hit.scan inside dataOf b (length a + i).
Proof.
  induction a as [|item rest IH]; intros i; cbn [app Hit.scan length].
  - reflexivity.
  - destruct (inside item); cbn [Hit.hit]; [reflexivity|].
    rewrite IH. replace (length rest + S i)%nat with (S (length rest) + i)%nat
      by lia.
    reflexivity.
Qed.

Lemma scan_offset {A T} (inside : A -> bool) (dataOf : A -> option T)
  (items : list A) (n : nat) :
  Hit.hit (Hit.scan inside dataOf items n)
  = Hit.hit (Hit.scan inside dataOf items 0) /\
  Hit.data (Hit.scan inside dataOf items n)
  = Hit.data (Hit.scan inside dataOf items 0) /\
  Hit.index (Hit.scan inside dataOf items n)
  = option_map (Nat.add n) (Hit.index (Hit.scan inside dataOf items 0)).
Proof.
  induction n as [|n IH].
  - repeat split.
    destruct (Hit.index (Hit.scan inside dataOf items 0)); reflexivity.
  - destruct (scan_shift inside dataOf items n) as (Hh & Hd & Hi).
    destruct IH as (IHh & IHd & IHi).
    rewrite Hh, Hd, Hi, IHh, IHd, IHi. repeat split.
    destruct (Hit.index (Hit.scan inside dataOf items 0)); reflexivity.
Qed.

(** X13.
    Two rectangle tests combined hit exactly when one test over both lists
    does, and return the same data; but the index of a hit in the second
    list counts from the start of that list, so it is [length first] less
    than the index the single test returns. *)
Theorem combined_rect_tests_lose_the_offset {T}
  (first second : list (Geometry.Bounds * option T)) (x y : Qc) :
  let combined :=
    Hit.combineHitTests
      [Hit.createRectHitTest first; Hit.createRectHitTest second] x y in
  let single := Hit.createRectHitTest (first ++ second) x y in
  Hit.hit combined = Hit.hit single /\
  Hit.data combined = Hit.data single /\
  Hit.index single
  = (if Hit.hit (Hit.createRectHitTest first x y)
     then Hit.index combined
     else option_map (Nat.add (length first)) (Hit.index combined)).
Proof.
  cbn zeta. unfold Hit.createRectHitTest. cbn [Hit.combineHitTests].
  rewrite scan_app. rewrite Nat.add_0_r.
  set (pt := {| px := x; py := y |}).
  set (inside := fun r : Geometry.Bounds * option T =>
                   Geometry.pointInBounds pt (fst r)).
  destruct (scan_offset inside snd second (length first))
    as (Hh & Hd & Hi).
  pose proof (@scan_from_zero _ T (Geometry.pointInBounds pt) second) as Hm.
  unfold first_match in Hm. fold inside in Hm.
  destruct (Hit.hit (Hit.scan inside snd first 0)) eqn:Hfirst;
    cbv iota.
  - repeat split; reflexivity.
  - rewrite Hh, Hd, Hi.
    destruct (Hit.hit (Hit.scan inside snd second 0)) eqn:Hsecond;
      cbv iota.
    + rewrite ?Hsecond. repeat split; reflexivity.
    + cbn [Hit.hit Hit.data Hit.index Hit.miss].
      destruct (Hit.index (Hit.scan inside snd second 0)) as [k|].
      * destruct Hm as (Hhit & _). congruence.
      * destruct Hm as (_ & Hdata & _). rewrite Hdata.
        repeat split; reflexivity.
Qed.

(* ------------------------------------------------------------------------- *)
(** ** Shapes *)

(** An edge between two vertices of the same height is never crossed, and
    the quotient by zero it would need is never used. *)
Lemma level_edge_is_not_crossed (p vi vj : Point) :
  py vi = py vj -> Geometry.edge_crosses p vi vj = false.
Proof.
  intros Hlevel. unfold Geometry.edge_crosses. rewrite Hlevel.
  rewrite Bool.eqb_reflx. reflexivity.
Qed.

Lemma upright_edge (p vi vj : Point) :
  px vi = px vj ->
  Geometry.edge_crosses p vi vj
  = negb (Bool.eqb (num_ltb (py p) (py vi)) (num_ltb (py p) (py vj)))
    && num_ltb (px p) (px vi).
Proof.
  intros Hupright. unfold Geometry.edge_crosses. rewrite Hupright.
  replace ((px vj - px vj) * (py p - py vi) / (py vj - py vi) + px vj)
    with (px vj) by (unfold Qcdiv; ring).
  reflexivity.
Qed.

(** Splits on every comparison in the goal, keeping what each outcome
    means. *)
Ltac split_comparisons :=
  repeat match goal with
  | |- context [num_ltb ?a ?b] =>
      let E := fresh "Hcmp" in
      destruct (num_ltb a b) eqn:E;
      [apply num_ltb_iff in E | apply num_ltb_false_iff in E]
  | |- context [num_leb ?a ?b] =>
      let E := fresh "Hcmp" in
      destruct (num_leb a b) eqn:E;
      [apply num_leb_iff in E | apply num_leb_false_iff in E]
  end.

(** X16.
    On an upright rectangle of positive size the polygon test is half open:
    it accepts what the rectangle test accepts, except the points on the
    far edges [x + width] and [y + height]. *)
Theorem polygon_test_of_a_rectangle_is_half_open
  (p : Point) (b : Geometry.Bounds)
  (Hwide : num 0 < Geometry.bounds_width b)
  (Hhigh : num 0 < Geometry.bounds_height b) :
  Geometry.pointInPolygon p (corners b)
  = Geometry.pointInBounds p b
    && num_ltb (px p) (Geometry.bounds_x b + Geometry.bounds_width b)
    && num_ltb (py p) (Geometry.bounds_y b + Geometry.bounds_height b).
Proof.
  unfold Geometry.pointInPolygon, corners, Geometry.pointInBounds.
  cbn [length Nat.sub Geometry.polygon_loop nth].
  rewrite (@upright_edge p
             {| px := Geometry.bounds_x b; py := Geometry.bounds_y b |}
             {| px := Geometry.bounds_x b;
                py := Geometry.bounds_y b + Geometry.bounds_height b |})
    by reflexivity.
  rewrite (@level_edge_is_not_crossed p
             {| px := Geometry.bounds_x b + Geometry.bounds_width b;
                py := Geometry.bounds_y b |}
             {| px := Geometry.bounds_x b; py := Geometry.bounds_y b |})
    by reflexivity.
  rewrite (@upright_edge p
             {| px := Geometry.bounds_x b + Geometry.bounds_width b;
                py := Geometry.bounds_y b + Geometry.bounds_height b |}
             {| px := Geometry.bounds_x b + Geometry.bounds_width b;
                py := Geometry.bounds_y b |})
    by reflexivity.
  rewrite (@level_edge_is_not_crossed p
             {| px := Geometry.bounds_x b;
                py := Geometry.bounds_y b + Geometry.bounds_height b |}
             {| px := Geometry.bounds_x b + Geometry.bounds_width b;
                py := Geometry.bounds_y b + Geometry.bounds_height b |})
    by reflexivity.
  cbn [px py].
  split_comparisons; cbn; try reflexivity; exfalso; to_rationals; lra.
Qed.

Lemma polygon_test_of_a_rectangle_is_half_open_witness :
  Geometry.pointInPolygon {| px := num 10; py := num 5 |}
    (corners {| Geometry.bounds_x := num 0; Geometry.bounds_y := num 0;
                Geometry.bounds_width := num 10;
                Geometry.bounds_height := num 10 |})
  = Geometry.pointInBounds {| px := num 10; py := num 5 |}
      {| Geometry.bounds_x := num 0; Geometry.bounds_y := num 0;
         Geometry.bounds_width := num 10; Geometry.bounds_height := num 10 |}
    && num_ltb (num 10) (num 0 + num 10)
    && num_ltb (num 5) (num 0 + num 10).
Proof.
  apply (@polygon_test_of_a_rectangle_is_half_open
           {| px := num 10; py := num 5 |}
           {| Geometry.bounds_x := num 0; Geometry.bounds_y := num 0;
              Geometry.bounds_width := num 10;
              Geometry.bounds_height := num 10 |}).
  - reflexivity.
  - reflexivity.
Defined.

Example far_edge_is_in_the_rectangle_not_in_the_polygon :
  let b := {| Geometry.bounds_x := num 0; Geometry.bounds_y := num 0;
              Geometry.bounds_width := num 10;
              Geometry.bounds_height := num 10 |} in
  Geometry.pointInBounds {| px := num 10; py := num 5 |} b = true /\
  Geometry.pointInPolygon {| px := num 10; py := num 5 |} (corners b)
  = false /\
  Geometry.pointInPolygon {| px := num 0; py := num 5 |} (corners b) = true.
Proof. repeat split; reflexivity. Qed.

(* ------------------------------------------------------------------------- *)
(** ** Keyboard directions *)

(** X20.
    [directionToValue] does not depend on its orientation argument: "up" and
    "right" give 1, "down" and "left" give -1, for a horizontal and for a
    vertical widget alike. *)
Theorem directionToValue_ignores_orientation
  (direction : Keys.Direction) (orientation : Keys.Orientation) :
  Keys.directionToValue direction orientation
  = Keys.directionToValue direction Keys.horizontal /\
  Keys.directionToValue direction orientation
  = match direction with
    | Keys.up | Keys.right => num 1
    | Keys.down | Keys.left => num (-1)
    end.
Proof. destruct direction, orientation; split; reflexivity. Qed.

(* ------------------------------------------------------------------------- *)
(** ** The order of doubles *)

(** What [SFcompare] answers, read on ranks. *)
Lemma compare_rank (a b : Double.number) :
  Double.is_nan a = false -> Double.is_nan b = false ->
  match SFcompare a b with
  | Some Lt => Double.below (Double.rank a) (Double.rank b)
  | Some Eq => Double.rank a = Double.rank b
  | Some Gt => Double.below (Double.rank b) (Double.rank a)
  | None => False
  end.
Proof.
  destruct a as [sa | sa | | sa ma ea], b as [sb | sb | | sb mb eb];
    try discriminate; intros _ _;
    try destruct sa; try destruct sb;
    unfold Double.below; cbn -[Z.compare Pos.compare_cont]; try lia;
    try reflexivity.
  - destruct (Z.compare_spec ea eb);
      [ change (Pos.compare_cont Eq ma mb) with (Pos.compare ma mb);
        destruct (Pos.compare_spec ma mb); cbn | .. ];
      first [ lia | f_equal; f_equal; lia | congruence ].
  - destruct (Z.compare_spec ea eb);
      [ change (Pos.compare_cont Eq ma mb) with (Pos.compare ma mb);
        destruct (Pos.compare_spec ma mb); cbn | .. ];
      first [ lia | f_equal; f_equal; lia | congruence ].
Qed.

Lemma ltb_below (a b : Double.number) :
  Double.is_nan a = false -> Double.is_nan b = false ->
  (Double.ltb a b = true <-> Double.below (Double.rank a) (Double.rank b)).
Proof.
  intros Ha Hb. pose proof (compare_rank a b Ha Hb) as Hcmp.
  unfold Double.ltb, SFltb.
  destruct (SFcompare a b) as [[ | | ]|]; try contradiction;
    unfold Double.below in *;
    (split; [intros Hlt; try discriminate Hlt | intros Hlt]);
    first [ exact Hcmp | reflexivity | exfalso; rewrite ?Hcmp in *; lia ].
Qed.

Lemma leb_below (a b : Double.number) :
  Double.is_nan a = false -> Double.is_nan b = false ->
  (Double.leb a b = true <->
   Double.below (Double.rank a) (Double.rank b)
   \/ Double.rank a = Double.rank b).
Proof.
  intros Ha Hb. pose proof (compare_rank a b Ha Hb) as Hcmp.
  unfold Double.leb, SFleb.
  destruct (SFcompare a b) as [[ | | ]|]; try contradiction;
    unfold Double.below in *;
    (split; [intros Hle; try discriminate Hle | intros Hle]);
    first [ right; exact Hcmp | left; exact Hcmp | reflexivity
          | exfalso; destruct Hle as [Hle | Hle]; rewrite ?Hle in *; lia ].
Qed.

Lemma eqb_rank (a b : Double.number) :
  Double.is_nan a = false -> Double.is_nan b = false ->
  (Double.eqb a b = true <-> Double.rank a = Double.rank b).
Proof.
  intros Ha Hb. pose proof (compare_rank a b Ha Hb) as Hcmp.
  unfold Double.eqb, SFeqb.
  destruct (SFcompare a b) as [[ | | ]|]; try contradiction;
    unfold Double.below in *;
    (split; [intros Heq; try discriminate Heq | intros Heq]);
    first [ exact Hcmp | reflexivity | exfalso; rewrite ?Heq in *; lia ].
Qed.

(** A comparison that holds has no [NaN] operand. *)
Lemma leb_not_nan (a b : Double.number) :
  Double.leb a b = true -> Double.is_nan a = false /\ Double.is_nan b = false.
Proof. destruct a, b; try discriminate; split; reflexivity. Qed.

Lemma ltb_not_nan (a b : Double.number) :
  Double.ltb a b = true -> Double.is_nan a = false /\ Double.is_nan b = false.
Proof. destruct a, b; try discriminate; split; reflexivity. Qed.

(** [Math.max] and [Math.min] of two numbers return one of the two: the
    larger, resp. the smaller, and either when they are equal. *)
Lemma max_cases (a b : Double.number) :
  Double.is_nan a = false -> Double.is_nan b = false ->
  (Double.below (Double.rank a) (Double.rank b) /\ Double.max a b = b) \/
  (Double.below (Double.rank b) (Double.rank a) /\ Double.max a b = a) \/
  (Double.rank a = Double.rank b /\
   (Double.max a b = a \/ Double.max a b = b)).
Proof.
  intros Ha Hb. unfold Double.max. rewrite Ha, Hb. cbn [orb].
  pose proof (ltb_below a b Ha Hb) as Hab.
  pose proof (ltb_below b a Hb Ha) as Hba.
  pose proof (compare_rank a b Ha Hb) as Hcmp.
  destruct (Double.ltb a b); [left; split; [apply Hab|]; reflexivity|].
  destruct (Double.ltb b a);
    [right; left; split; [apply Hba|]; reflexivity|].
  right; right. split.
  - destruct (SFcompare a b) as [[ | | ]|]; try contradiction;
      [exact Hcmp | apply Hab in Hcmp | apply Hba in Hcmp]; discriminate.
  - destruct a as [[|] | | |]; auto.
Qed.

Lemma min_cases (a b : Double.number) :
  Double.is_nan a = false -> Double.is_nan b = false ->
  (Double.below (Double.rank a) (Double.rank b) /\ Double.min a b = a) \/
  (Double.below (Double.rank b) (Double.rank a) /\ Double.min a b = b) \/
  (Double.rank a = Double.rank b /\
   (Double.min a b = a \/ Double.min a b = b)).
Proof.
  intros Ha Hb. unfold Double.min. rewrite Ha, Hb. cbn [orb].
  pose proof (ltb_below a b Ha Hb) as Hab.
  pose proof (ltb_below b a Hb Ha) as Hba.
  pose proof (compare_rank a b Ha Hb) as Hcmp.
  destruct (Double.ltb a b); [left; split; [apply Hab|]; reflexivity|].
  destruct (Double.ltb b a);
    [right; left; split; [apply Hba|]; reflexivity|].
  right; right. split.
  - destruct (SFcompare a b) as [[ | | ]|]; try contradiction;
      [exact Hcmp | apply Hab in Hcmp | apply Hba in Hcmp]; discriminate.
  - destruct a as [[|] | | |]; auto.
Qed.

(** What is known of [clamp value min max] when no argument is [NaN]: it
    is one of the three, and where it stands. *)
Lemma clamp_rank (value min max : Double.number) :
  Double.is_nan value = false -> Double.is_nan min = false ->
  Double.is_nan max = false ->
  let c := Geometry.clamp value min max in
  Double.is_nan c = false /\
  (Double.below (Double.rank max) (Double.rank min) -> c = max) /\
  (~ Double.below (Double.rank max) (Double.rank min) ->
   ~ Double.below (Double.rank c) (Double.rank min) /\
   ~ Double.below (Double.rank max) (Double.rank c) /\
   (~ Double.below (Double.rank value) (Double.rank min) ->
    ~ Double.below (Double.rank max) (Double.rank value) ->
    Double.rank c = Double.rank value)).
Proof.
  intros Hv Hlo Hhi c. subst c. unfold Geometry.clamp.
  destruct (max_cases value min Hv Hlo)
    as [[Hr ->] | [[Hr ->] | [Hr [-> | ->]]]];
    match goal with
    | |- context [Double.min ?m max] =>
        assert (Hm : Double.is_nan m = false) by assumption;
        destruct (min_cases m max Hm Hhi)
          as [[Hs ->] | [[Hs ->] | [Hs [-> | ->]]]]
    end;
    (split; [assumption|]);
    unfold Double.below in *;
    destruct (Double.rank value) as [v1 [v2 v3]],
             (Double.rank min) as [l1 [l2 l3]],
             (Double.rank max) as [h1 [h2 h3]];
    cbn [fst snd] in *;
    (split; [intros Hinv; try reflexivity; exfalso;
             try (injection Hr as ? ? ?); try (injection Hs as ? ? ?); lia|]);
    intros Hord;
    (split; [try (injection Hr as ? ? ?); try (injection Hs as ? ? ?); lia|]);
    (split; [try (injection Hr as ? ? ?); try (injection Hs as ? ? ?); lia|]);
    intros H1 H2; try reflexivity;
    try (injection Hr as ? ? ?); try (injection Hs as ? ? ?);
    (f_equal; [lia | f_equal; lia]).
Qed.

(** [NaN] goes through [clamp]. *)
Lemma clamp_of_nan (value min max : Double.number) :
  Double.is_nan value = true -> Geometry.clamp value min max = Double.NaN.
Proof. destruct value; try discriminate. intros _. reflexivity. Qed.

(** Of two ranks one is below the other, unless they are the same. *)
Lemma rank_trichotomy (r s : Z * (Z * Z)) :
  Double.below r s \/ r = s \/ Double.below s r.
Proof.
  destruct r as [r1 [r2 r3]], s as [s1 [s2 s3]].
  unfold Double.below; cbn [fst snd].
  destruct (Z.lt_trichotomy r1 s1) as [H1 | [H1 | H1]];
    destruct (Z.lt_trichotomy r2 s2) as [H2 | [H2 | H2]];
    destruct (Z.lt_trichotomy r3 s3) as [H3 | [H3 | H3]];
    first [ left; lia | right; right; lia
          | right; left; subst; reflexivity ].
Qed.

(* ------------------------------------------------------------------------- *)
(** ** Clamping *)

(** X21.
    With [min <= max], [clamp] of a value that is not [NaN] lands in
    [[min, max]] and, if the value is already there, is [===] to it (of the
    two zeros it may return the other one).  A [NaN] value comes back as
    [NaN]. *)
Theorem clamp_stays_in_range (value min max : Double.number)
  (Hrange : Double.leb min max = true) :
  let c := Geometry.clamp value min max in
  if Double.is_nan value then c = Double.NaN
  else Double.leb min c = true /\ Double.leb c max = true /\
       (Double.leb min value = true -> Double.leb value max = true ->
        Double.eqb c value = true).
Proof.
  intros c. subst c.
  destruct (Double.is_nan value) eqn:Hvalue;
    [apply clamp_of_nan; exact Hvalue|].
  destruct (leb_not_nan _ _ Hrange) as [Hlo Hhi].
  destruct (clamp_rank value min max Hvalue Hlo Hhi) as (Hc & _ & Hin).
  apply (leb_below _ _ Hlo Hhi) in Hrange.
  assert (Hord : ~ Double.below (Double.rank max) (Double.rank min)).
  { unfold Double.below in *. destruct Hrange as [Hr | Hr];
      [| rewrite Hr]; lia. }
  destruct (Hin Hord) as (Hlow & Hhigh & Hsame).
  split; [|split].
  - apply (leb_below _ _ Hlo Hc).
    destruct (rank_trichotomy (Double.rank min)
                (Double.rank (Geometry.clamp value min max)))
      as [H | [H | H]]; [left; exact H | right; exact H | contradiction].
  - apply (leb_below _ _ Hc Hhi).
    destruct (rank_trichotomy (Double.rank (Geometry.clamp value min max))
                (Double.rank max))
      as [H | [H | H]]; [left; exact H | right; exact H | contradiction].
  - intros Hge Hle.
    apply (leb_below _ _ Hlo Hvalue) in Hge.
    apply (leb_below _ _ Hvalue Hhi) in Hle.
    apply (eqb_rank _ _ Hc Hvalue). apply Hsame.
    + unfold Double.below in *. destruct Hge as [Hr | Hr];
        [| rewrite Hr]; lia.
    + unfold Double.below in *. destruct Hle as [Hr | Hr];
        [| rewrite Hr]; lia.
Qed.

Lemma clamp_stays_in_range_witness :
  Double.leb (Double.of_Z 0)
    (Geometry.clamp (Double.of_Z 150) (Double.of_Z 0) (Double.of_Z 100))
  = true /\
  Double.leb
    (Geometry.clamp (Double.of_Z 150) (Double.of_Z 0) (Double.of_Z 100))
    (Double.of_Z 100) = true /\
  (Double.leb (Double.of_Z 0) (Double.of_Z 150) = true ->
   Double.leb (Double.of_Z 150) (Double.of_Z 100) = true ->
   Double.eqb
     (Geometry.clamp (Double.of_Z 150) (Double.of_Z 0) (Double.of_Z 100))
     (Double.of_Z 150) = true).
Proof.
  apply (@clamp_stays_in_range (Double.of_Z 150) (Double.of_Z 0)
           (Double.of_Z 100)).
  reflexivity.
Defined.

(** X22.
    With the bounds the wrong way round, [max < min], [clamp] returns [max]
    whatever the value, [Math.min] being applied last - except for a [NaN]
    value, which comes back as [NaN]. *)
Theorem clamp_of_inverted_range_is_max (value min max : Double.number)
  (Hinverted : Double.ltb max min = true) :
  Geometry.clamp value min max
  = if Double.is_nan value then Double.NaN else max.
Proof.
  destruct (Double.is_nan value) eqn:Hvalue;
    [apply clamp_of_nan; exact Hvalue|].
  destruct (ltb_not_nan _ _ Hinverted) as [Hhi Hlo].
  destruct (clamp_rank value min max Hvalue Hlo Hhi) as (_ & Hmax & _).
  apply Hmax. apply (ltb_below _ _ Hhi Hlo). exact Hinverted.
Qed.

Lemma clamp_of_inverted_range_is_max_witness :
  Geometry.clamp (Double.of_Z 5) (Double.of_Z 10) (Double.of_Z 0)
  = Double.of_Z 0.
Proof.
  apply (@clamp_of_inverted_range_is_max (Double.of_Z 5) (Double.of_Z 10)
           (Double.of_Z 0)).
  reflexivity.
Defined.

Example clamp_of_zeros_and_nan :
  Geometry.clamp (S754_zero true) (Double.of_Z 0) (Double.of_Z 1)
  = S754_zero false /\
  Geometry.clamp Double.NaN (Double.of_Z 0) (Double.of_Z 100) = Double.NaN /\
  Geometry.clamp (Double.of_Z 5) Double.NaN (Double.of_Z 100) = Double.NaN.
Proof. repeat split; reflexivity. Qed.

(* ------------------------------------------------------------------------- *)
(** ** Sums and products that are not [NaN] *)

Lemma iter_pos_keeps {A} (P : A -> Prop) (f : A -> A) :
  (forall a, P a -> P (f a)) ->
  forall (n : positive) (a : A), P a -> P (iter_pos f n a).
Proof.
  intros Hf. induction n as [n IH | n IH |]; intros a Ha; cbn [iter_pos].
  - apply IH, IH, Hf, Ha.
  - apply IH, IH, Ha.
  - apply Hf, Ha.
Qed.

Lemma shr_1_keeps_sign (mrs : shr_record) :
  (0 <= shr_m mrs)%Z -> (0 <= shr_m (shr_1 mrs))%Z.
Proof.
  destruct mrs as [m r s]. cbn [shr_m].
  destruct m as [|[p|p|]|[p|p|]]; cbn; lia.
Qed.

Lemma shr_fexp_keeps_sign (m e : Z) (l : location) :
  (0 <= m)%Z ->
  (0 <= shr_m (fst (shr_fexp Double.prec Double.emax m e l)))%Z.
Proof.
  intros Hm. unfold shr_fexp, shr.
  assert (Hstart : (0 <= shr_m (shr_record_of_loc m l))%Z)
    by (destruct l as [|[ | | ]]; exact Hm).
  destruct (fexp Double.prec Double.emax (Zdigits2 m + e) - e)%Z;
    cbn [fst]; try exact Hstart.
  apply (iter_pos_keeps (fun mrs => (0 <= shr_m mrs)%Z));
    [exact shr_1_keeps_sign | exact Hstart].
Qed.

(** Rounding a mantissa that is not negative never gives [NaN]. *)
Lemma binary_round_aux_not_nan (s : bool) (m e : Z) (l : location) :
  (0 <= m)%Z ->
  Double.is_nan (binary_round_aux Double.prec Double.emax s m e l) = false.
Proof.
  intros Hm. unfold binary_round_aux.
  pose proof (@shr_fexp_keeps_sign m e l Hm) as Hfirst.
  destruct (shr_fexp Double.prec Double.emax m e l) as [mrs' e'].
  cbn [fst] in Hfirst.
  assert (Hrounded :
    (0 <= round_nearest_even (shr_m mrs') (loc_of_shr_record mrs'))%Z).
  { unfold round_nearest_even.
    destruct (loc_of_shr_record mrs') as [|[ | | ]];
      try destruct (Z.even (shr_m mrs')); lia. }
  pose proof (@shr_fexp_keeps_sign _ e' loc_Exact Hrounded) as Hsecond.
  destruct (shr_fexp Double.prec Double.emax
              (round_nearest_even (shr_m mrs') (loc_of_shr_record mrs'))
              e' loc_Exact) as [mrs'' e''].
  cbn [fst] in Hsecond.
  destruct (shr_m mrs'') as [|q|q]; [reflexivity | | lia].
  destruct (e'' <=? Double.emax - Double.prec)%Z; reflexivity.
Qed.

Lemma binary_normalize_not_nan (m e : Z) (szero : bool) :
  Double.is_nan (binary_normalize Double.prec Double.emax m e szero) = false.
Proof.
  unfold binary_normalize, binary_round.
  destruct m as [|q|q]; [reflexivity | |];
    match goal with
    | |- context [shl_align ?a ?b ?c] => destruct (shl_align a b c)
    end; apply binary_round_aux_not_nan; lia.
Qed.

(** A finite number plus a number is [NaN] only if the latter is. *)
Lemma add_not_nan (a b : Double.number) :
  Double.is_finite a = true -> Double.is_nan b = false ->
  Double.is_nan (Double.add a b) = false.
Proof.
  destruct a as [sa | sa | | sa ma ea], b as [sb | sb | | sb mb eb];
    try discriminate; intros _ _; try reflexivity.
  - destruct sa, sb; reflexivity.
  - apply binary_normalize_not_nan.
Qed.

(** A finite number other than zero times a number is [NaN] only if the
    latter is. *)
Lemma mul_not_nan (s : bool) (m : positive) (e : Z) (b : Double.number) :
  Double.is_nan b = false ->
  Double.is_nan (Double.mul (S754_finite s m e) b) = false.
Proof.
  destruct b as [sb | sb | | sb mb eb]; try discriminate; intros _;
    try reflexivity.
  apply binary_round_aux_not_nan. lia.
Qed.

(* ------------------------------------------------------------------------- *)
(** ** The slider *)

Lemma reported_app (out1 out2 : list Slider.Emitted) (v : Double.number) :
  reported (out1 ++ out2) v <-> reported out1 v \/ reported out2 v.
Proof. unfold reported. rewrite !in_app_iff. tauto. Qed.

Lemma reported_invoke (callback : option (Double.number -> bool))
  (e : Double.number -> Slider.Emitted) (x v : Double.number) :
  reported (fst (Slider.invoke callback e x)) v ->
  e x = Slider.Change v \/ e x = Slider.ChangeEnd v.
Proof.
  unfold reported, Slider.invoke. destruct callback; cbn; [|tauto].
  intros [[H | H] | [H | H]]; auto; contradiction.
Qed.

Lemma reported_after_prevent (out : list Slider.Emitted)
  (v : Double.number) :
  reported (Slider.PreventDefault :: out) v -> reported out v.
Proof.
  intros [[Hv | Hv] | [Hv | Hv]]; try discriminate Hv;
    [left | right]; exact Hv.
Qed.

(** Whatever the callbacks do, [onChange?.(x); onChangeEnd?.(x)] reports
    no value but [x]. *)
Lemma reported_both (p : Slider.Props) (x v : Double.number) :
  reported (Slider.invoke_both p x) v -> v = x.
Proof.
  unfold Slider.invoke_both.
  destruct (Slider.invoke (Slider.onChange p) Slider.Change x)
    as [called raised] eqn:Hfirst.
  assert (Hcalled : reported called v -> v = x).
  { intros Hv.
    replace called
      with (fst (Slider.invoke (Slider.onChange p) Slider.Change x)) in Hv
      by (rewrite Hfirst; reflexivity).
    apply reported_invoke in Hv. destruct Hv as [Hv | Hv]; congruence. }
  destruct raised; [exact Hcalled|].
  intros Hv. apply reported_app in Hv.
  destruct Hv as [Hv | Hv]; [exact (Hcalled Hv)|].
  apply reported_invoke in Hv. destruct Hv as [Hv | Hv]; congruence.
Qed.

(** X27.
    Keys move a slider inside [[min, max]]: with [min <= max], a finite
    current value and a step that is not [NaN], every value
    [handleKeyDown] reports lies in the range, and a value reported for an
    arrow key is not [===] to the current one (at the end of the range the
    clamped value is the current one, and nothing is reported). *)
Theorem slider_keys_stay_in_range
  (p : Slider.Props) (key : String.string)
  (Hrange : Double.leb (Slider.min p) (Slider.max p) = true)
  (Hvalue : Double.is_finite (Slider.value p) = true)
  (Hstep : Double.is_nan (Slider.step p) = false) :
  forall v, reported (Slider.handleKeyDown p key) v ->
            Double.leb (Slider.min p) v = true /\
            Double.leb v (Slider.max p) = true /\
            (Keys.keyToDirection key <> None ->
             Double.eqb v (Slider.value p) = false).
Proof.
  intros v. unfold Slider.handleKeyDown.
  destruct (leb_not_nan _ _ Hrange) as [Hlo Hhi].
  destruct (Slider.disabled p); [intros [[] | []]|].
  destruct (Keys.keyToDirection key) as [direction|].
  - intros Hv. apply reported_after_prevent in Hv.
    set (delta := Double.mul _ (Slider.step p)) in *.
    assert (Hdelta : Double.is_nan delta = false).
    { subst delta.
      destruct direction, (Slider.orientation p); apply mul_not_nan;
        exact Hstep. }
    assert (Hsum : Double.is_nan (Double.add (Slider.value p) delta) = false)
      by (apply add_not_nan; assumption).
    pose proof (@clamp_stays_in_range (Double.add (Slider.value p) delta)
                  _ _ Hrange) as Hclamp.
    cbv zeta in Hclamp. rewrite Hsum in Hclamp.
    destruct Hclamp as (Hge & Hle & _).
    destruct (Double.eqb (Geometry.clamp _ _ _) (Slider.value p)) eqn:Hsame;
      cbn [negb] in Hv; [destruct Hv as [[] | []]|].
    apply reported_both in Hv. subst v.
    split; [exact Hge|]. split; [exact Hle|]. intros _. exact Hsame.
  - destruct (Keys.key_is key Keys.Home).
    + intros Hv. apply reported_after_prevent, reported_both in Hv. subst v.
      split; [|split; [exact Hrange | intros Hno; contradiction Hno;
                                      reflexivity]].
      apply (leb_below _ _ Hlo Hlo). right. reflexivity.
    + destruct (Keys.key_is key Keys.End_); [|intros [[] | []]].
      intros Hv. apply reported_after_prevent, reported_both in Hv. subst v.
      split; [exact Hrange|].
      split; [|intros Hno; contradiction Hno; reflexivity].
      apply (leb_below _ _ Hhi Hhi). right. reflexivity.
Qed.

Lemma slider_keys_stay_in_range_witness :
  reported
    (Slider.handleKeyDown (default_slider (Double.of_Z 40)) Keys.ArrowUp)
    (Double.of_Z 41) /\
  Double.leb (Double.of_Z 0) (Double.of_Z 41) = true /\
  Double.leb (Double.of_Z 41) (Double.of_Z 100) = true /\
  (Keys.keyToDirection Keys.ArrowUp <> None ->
   Double.eqb (Double.of_Z 41) (Double.of_Z 40) = false).
Proof.
  assert (Hreported :
    reported
      (Slider.handleKeyDown (default_slider (Double.of_Z 40)) Keys.ArrowUp)
      (Double.of_Z 41))
    by (left; vm_compute; right; left; reflexivity).
  split; [exact Hreported|].
  apply (@slider_keys_stay_in_range (default_slider (Double.of_Z 40))
           Keys.ArrowUp).
  - reflexivity.
  - reflexivity.
  - reflexivity.
  - exact Hreported.
Defined.

(** What the keys report at the ends of the range, and for a value that is
    [NaN]: [clamp] returns [NaN], which is not [===] to itself, so [NaN] is
    reported. *)
Example keys_at_the_end_and_on_nan :
  Slider.handleKeyDown (default_slider (Double.of_Z 100)) Keys.ArrowUp
  = [Slider.PreventDefault] /\
  Slider.handleKeyDown (default_slider (Double.of_Z 100)) Keys.ArrowDown
  = [Slider.PreventDefault; Slider.Change (Double.of_Z 99);
     Slider.ChangeEnd (Double.of_Z 99)] /\
  Slider.handleKeyDown (default_slider (Double.of_Z 40)) Keys.Tab = [] /\
  Slider.handleKeyDown (default_slider Double.NaN) Keys.ArrowUp
  = [Slider.PreventDefault; Slider.Change Double.NaN;
     Slider.ChangeEnd Double.NaN].
Proof. repeat split; reflexivity. Qed.

(** When [onChange] raises, [onChangeEnd] is not reached. *)
Example raising_onChange_skips_onChangeEnd :
  Slider.handleKeyDown slider_with_raising_onChange Keys.ArrowUp
  = [Slider.PreventDefault; Slider.Change (Double.of_Z 41)] /\
  Slider.handleKeyDown slider_with_raising_onChange Keys.Home
  = [Slider.PreventDefault; Slider.Change (Double.of_Z 0)].
Proof. split; reflexivity. Qed.






(** Dragging past both ends of the default slider reports 100, then 0, and
    0 again at the release.  On a track without length the position is
    0 / 0: every press and every move reports [NaN]. *)
Example dragging_past_both_ends :
  snd (Slider.handle_all (default_slider (Double.of_Z 40))
         (first_render (default_slider (Double.of_Z 40)))
         [Slider.Down (Double.of_Z 500) (Double.of_Z 20);
          Slider.Move (Double.of_Z (-30)) (Double.of_Z 20);
          Slider.Up])
  = [Slider.Change (Double.of_Z 100); Slider.Change (Double.of_Z 0);
     Slider.ChangeEnd (Double.of_Z 0)] /\
  snd (Slider.handle_all squeezed_slider (first_render squeezed_slider)
         [Slider.Down (Double.of_Z 8) (Double.of_Z 20);
          Slider.Move (Double.of_Z 8) (Double.of_Z 20);
          Slider.Move (Double.of_Z 8) (Double.of_Z 20)])
  = [Slider.Change Double.NaN; Slider.Change Double.NaN;
     Slider.Change Double.NaN].
Proof. split; reflexivity. Qed.

(* ------------------------------------------------------------------------- *)
(** ** Drag state *)

Lemma last_cons {A} (l : list A) (a d : A) : last (a :: l) d = last l a.
Proof.
  revert a d. induction l as [|b rest IH]; intros a d; [reflexivity|].
  change (last (a :: b :: rest) d) with (last (b :: rest) d).
  rewrite !IH. reflexivity.
Qed.

(** While a drag runs, the start point stays and the current point is the
    last one passed. *)
Lemma running_drag (origin : Drag.Point) (points : list Drag.Point) :
  forall (st : Drag.DragState) (current : Drag.Point),
    Drag.isDragging st = true ->
    Drag.startPoint st = Some origin ->
    Drag.currentPoint st = Some current ->
    let st' := fold_left Drag.updateDrag points st in
    Drag.isDragging st' = true /\
    Drag.startPoint st' = Some origin /\
    Drag.currentPoint st' = Some (last points current).
Proof.
  induction points as [|point rest IH]; intros st current Hrun Hstart Hcur.
  - repeat split; assumption.
  - cbn [fold_left]. rewrite last_cons.
    apply IH; unfold Drag.updateDrag; rewrite Hrun, Hstart, Hcur;
      cbn; first [reflexivity | assumption].
Qed.

(** X18.
    From [startDrag] at [origin] on, however many updates came before, the
    state after an update to [q] is dragging, still starts at [origin], and
    its total is the one subtraction [q - origin] and its delta the one
    subtraction of the point before from [q]: the total depends on the two
    end points only, not on the way between them.  (In doubles it is not
    the sum of the deltas reported on the way.) *)
Theorem drag_total_is_last_point_minus_origin
  (st0 : Drag.DragState) (origin q : Drag.Point) (points : list Drag.Point) :
  let st := fold_left Drag.updateDrag (points ++ [q])
              (Drag.startDrag st0 origin) in
  Drag.isDragging st = true /\
  Drag.startPoint st = Some origin /\
  Drag.currentPoint st = Some q /\
  Drag.totalDelta st = minus q origin /\
  Drag.delta st = minus q (last points origin).
Proof.
  intros st. subst st. rewrite fold_left_app. cbn [fold_left].
  destruct (@running_drag origin points (Drag.startDrag st0 origin) origin
              eq_refl eq_refl eq_refl) as (Hrun & Hstart & Hcur).
  cbv zeta in Hrun, Hstart, Hcur.
  set (st' := fold_left Drag.updateDrag points (Drag.startDrag st0 origin))
    in *.
  unfold Drag.updateDrag. rewrite Hrun, Hstart, Hcur. cbn.
  repeat split; assumption.
Qed.

(** A drag from 0.2 to 1 and back to 0.7: the deltas are 0.8 and
    -0.30000000000000004, which add up to 0.5; the total is
    0.49999999999999994. *)
Example deltas_need_not_add_up_to_the_total :
  let s1 := Drag.updateDrag
              (Drag.startDrag Drag.createInitialDragState (on_the_axis 2 10))
              (on_the_axis 1 1) in
  let s2 := Drag.updateDrag s1 (on_the_axis 7 10) in
  Drag.x (Drag.delta s1) = decimal 8 10 /\
  Drag.x (Drag.delta s2) = S754_finite true 5404319552844596 (-54) /\
  Double.add (Drag.x (Drag.delta s1)) (Drag.x (Drag.delta s2))
  = decimal 5 10 /\
  Drag.x (Drag.totalDelta s2) = S754_finite false 9007199254740991 (-54).
Proof. repeat split; reflexivity. Qed.

Lemma updates_without_drag_are_ignored (points : list Drag.Point) :
  forall st, Drag.isDragging st = false ->
             fold_left Drag.updateDrag points st = st.
Proof.
  induction points as [|point rest IH]; intros st Hidle; [reflexivity|].
  cbn [fold_left].
  assert (Hstep : Drag.updateDrag st point = st)
    by (unfold Drag.updateDrag; rewrite Hidle; reflexivity).
  rewrite Hstep. apply IH. exact Hidle.
Qed.

(** X19.
    Updates only count between [startDrag] and [endDrag]: before any drag
    the initial state ignores them, and after [endDrag] the state is frozen,
    no longer dragging, with a zero delta and the total of the drag kept. *)
Theorem updates_outside_a_drag_are_ignored
  (st : Drag.DragState) (points : list Drag.Point) :
  fold_left Drag.updateDrag points Drag.createInitialDragState
  = Drag.createInitialDragState /\
  fold_left Drag.updateDrag points (Drag.endDrag st) = Drag.endDrag st /\
  Drag.isDragging (Drag.endDrag st) = false /\
  Drag.delta (Drag.endDrag st) = Drag.zero /\
  Drag.totalDelta (Drag.endDrag st) = Drag.totalDelta st.
Proof.
  split; [apply updates_without_drag_are_ignored; reflexivity|].
  split; [apply updates_without_drag_are_ignored; reflexivity|].
  repeat split.
Qed.

(* ------------------------------------------------------------------------- *)
(** ** The redraw registry *)

Lemma set_has_iff (cb : Redraw.Callback) (s : Redraw.SetData) :
  Redraw.set_has cb s = true <-> In cb (values s).
Proof.
  unfold Redraw.set_has.
  induction s as [|[c|] rest IH]; cbn [existsb values Redraw.is_entry In].
  - split; [discriminate | intros []].
  - rewrite Bool.orb_true_iff, IH, Nat.eqb_eq. split; intros [H | H]; auto.
  - rewrite Bool.orb_false_l. exact IH.
Qed.

Lemma values_app (s t : Redraw.SetData) :
  values (s ++ t) = values s ++ values t.
Proof.
  induction s as [|[c|] rest IH]; cbn [app values]; rewrite ?IH; reflexivity.
Qed.

Lemma set_add_spec (cb : Redraw.Callback) (s : Redraw.SetData) :
  NoDup (values s) ->
  NoDup (values (Redraw.set_add cb s)) /\
  (forall c, In c (values (Redraw.set_add cb s))
             <-> c = cb \/ In c (values s)).
Proof.
  intros Hnd. unfold Redraw.set_add.
  destruct (Redraw.set_has cb s) eqn:Hhas.
  - apply set_has_iff in Hhas. split; [exact Hnd|].
    intros c. split; [intros H; right; exact H|].
    intros [-> | H]; assumption.
  - assert (Hnot : ~ In cb (values s)).
    { intros Hin. apply set_has_iff in Hin. congruence. }
    rewrite values_app. cbn [values]. split.
    + apply NoDup_app; [exact Hnd | repeat constructor; intros [] |].
      intros c Hc [Hc' | []]. subst. contradiction.
    + intros c. rewrite in_app_iff. cbn [In]. intuition.
Qed.

Lemma set_delete_spec (cb : Redraw.Callback) (s : Redraw.SetData) :
  NoDup (values s) ->
  NoDup (values (Redraw.set_delete cb s)) /\
  (forall c, In c (values (Redraw.set_delete cb s))
             <-> c <> cb /\ In c (values s)).
Proof.
  induction s as [|[a|] rest IH]; intros Hnd.
  - split; [constructor|]. intros c. cbn. tauto.
  - cbn [values] in Hnd. inversion Hnd as [|? ? Hnotin Hrest]; subst.
    cbn [Redraw.set_delete Redraw.is_entry].
    destruct (Nat.eqb cb a) eqn:Heq.
    + apply Nat.eqb_eq in Heq. subst a. cbn [values]. split; [exact Hrest|].
      intros c. cbn [In]. split.
      * intros Hin. split; [intros ->; contradiction | right; exact Hin].
      * intros [Hne [Heq | Hin]]; [congruence | exact Hin].
    + apply Nat.eqb_neq in Heq. destruct (IH Hrest) as [Hnd' Hin'].
      cbn [values]. split.
      * constructor; [|exact Hnd']. intros Hin. apply Hin' in Hin.
        destruct Hin as [_ Hin]. contradiction.
      * intros c. cbn [In]. rewrite Hin'. split.
        -- intros [-> | [Hne Hin]]; [split; [congruence | left; reflexivity]
                                    | split; [exact Hne | right; exact Hin]].
        -- intros [Hne [-> | Hin]]; [left; reflexivity | right; tauto].
  - cbn [Redraw.set_delete Redraw.is_entry values] in *. apply IH. exact Hnd.
Qed.

Lemma registry_after (actions : list Redraw.Action) (cb : Redraw.Callback) :
  forall s before,
    NoDup (values s) -> (In cb (values s) <-> before = true) ->
    NoDup (values (fold_left Redraw.act actions s)) /\
    (In cb (values (fold_left Redraw.act actions s))
     <-> registered_after cb actions before = true).
Proof.
  induction actions as [|a rest IH]; intros s before Hnd Hin.
  - split; assumption.
  - cbn [fold_left]. destruct a as [c | c];
      cbn [Redraw.act registered_after];
      unfold Redraw.registerRedraw, Redraw.unregister.
    + destruct (@set_add_spec c s Hnd) as [Hnd' Hin'].
      apply IH; [exact Hnd'|]. rewrite Hin'.
      destruct (Nat.eqb c cb) eqn:Heq.
      * apply Nat.eqb_eq in Heq. subst. tauto.
      * apply Nat.eqb_neq in Heq. rewrite <- Hin. split.
        -- intros [-> | H]; [congruence | exact H].
        -- intros H. right. exact H.
    + destruct (@set_delete_spec c s Hnd) as [Hnd' Hin'].
      apply IH; [exact Hnd'|]. rewrite Hin'.
      destruct (Nat.eqb c cb) eqn:Heq.
      * apply Nat.eqb_eq in Heq. subst. split; [tauto | discriminate].
      * apply Nat.eqb_neq in Heq. rewrite <- Hin. split.
        -- intros [_ H]. exact H.
        -- intros H. split; [congruence | exact H].
Qed.

Lemma skipn_nth_error {A} (l : list A) :
  forall (i : nat) (a : A),
    nth_error l i = Some a -> skipn i l = a :: skipn (S i) l.
Proof.
  induction l as [|b rest IH]; intros [|i] a Hnth; try discriminate.
  - injection Hnth as ->. reflexivity.
  - cbn [skipn]. apply IH. exact Hnth.
Qed.

(** A pass over callbacks that leave the set alone ends, and invokes the
    values from its slot on, up to the first that raises. *)
Lemma forEach_of_inert_callbacks
  (behaviour : list Redraw.Callback -> Redraw.Callback -> Redraw.Outcome)
  (s : Redraw.SetData) :
  (forall sofar cb, Redraw.does (behaviour sofar cb) = []) ->
  forall (fuel index : nat) (sofar : list Redraw.Callback),
    (index <= length s < fuel + index)%nat ->
    Redraw.forEach fuel behaviour s index sofar
    = let pass := until_raise (fun l cb => Redraw.throws (behaviour l cb))
                    (values (skipn index s)) sofar in
      Some {| Redraw.entries := s;
              Redraw.invoked := fst pass;
              Redraw.raised := snd pass |}.
Proof.
  intros Hinert. induction fuel as [|fuel IH]; intros index sofar Hfuel;
    [lia|].
  cbn [Redraw.forEach].
  destruct (nth_error s index) as [[cb|]|] eqn:Hnth.
  - assert (Hindex : (index < length s)%nat)
      by (apply nth_error_Some; congruence).
    rewrite (@skipn_nth_error _ s index _ Hnth). cbn [values until_raise].
    rewrite Hinert. cbn [fold_left].
    destruct (Redraw.throws (behaviour sofar cb)); [reflexivity|].
    apply IH. lia.
  - assert (Hindex : (index < length s)%nat)
      by (apply nth_error_Some; congruence).
    rewrite (@skipn_nth_error _ s index _ Hnth). cbn [values].
    apply IH. lia.
  - apply nth_error_None in Hnth.
    rewrite skipn_all2 by exact Hnth. reflexivity.
Qed.

Lemma until_raise_of_quiet_callbacks
  (raises_at : list Redraw.Callback -> Redraw.Callback -> bool)
  (cbs : list Redraw.Callback) :
  (forall l cb, raises_at l cb = false) ->
  forall sofar, until_raise raises_at cbs sofar = (sofar ++ cbs, false).
Proof.
  intros Hquiet.
  induction cbs as [|cb rest IH]; intros sofar; cbn [until_raise].
  - rewrite app_nil_r. reflexivity.
  - rewrite Hquiet, IH, <- app_assoc. reflexivity.
Qed.

(** X30.
    After any sequence of registrations and unregistrations, starting with
    an empty registry, a callback is in the registry exactly if the last
    action naming it was a registration, and no callback is there twice.
    [triggerRedraw] then, as long as the callbacks leave the registry
    alone while it runs, ends and invokes the registered callbacks in the
    order of their registration, up to and including the first one that
    raises: the callbacks after that one are not invoked.  If none raises,
    each registered callback is invoked exactly once; in particular a
    callback registered twice and unregistered once is no longer invoked,
    the two registrations sharing one entry. *)
Theorem triggerRedraw_invokes_the_last_registered
  (actions : list Redraw.Action)
  (behaviour : list Redraw.Callback -> Redraw.Callback -> Redraw.Outcome) :
  let s := fold_left Redraw.act actions [] in
  let pass := until_raise (fun l cb => Redraw.throws (behaviour l cb))
                (values s) [] in
  NoDup (values s) /\
  (forall cb, In cb (values s) <-> registered_after cb actions false = true) /\
  ((forall sofar cb, Redraw.does (behaviour sofar cb) = []) ->
   Redraw.triggerRedraw (S (length s)) behaviour s
   = Some {| Redraw.entries := s;
             Redraw.invoked := fst pass;
             Redraw.raised := snd pass |}) /\
  ((forall sofar cb, Redraw.throws (behaviour sofar cb) = false) ->
   snd pass = false /\
   forall cb, count_occ Nat.eq_dec (fst pass) cb
              = if registered_after cb actions false then 1%nat else 0%nat).
Proof.
  intros s pass.
  assert (Hregistry : forall cb,
            NoDup (values s) /\
            (In cb (values s) <-> registered_after cb actions false = true)).
  { intros cb. apply (@registry_after actions cb [] false (NoDup_nil _)).
    split; [intros [] | discriminate]. }
  split; [exact (proj1 (Hregistry 0%nat))|].
  split; [intros cb; exact (proj2 (Hregistry cb))|].
  split.
  - intros Hinert. unfold Redraw.triggerRedraw.
    rewrite (@forEach_of_inert_callbacks behaviour s Hinert) by lia.
    reflexivity.
  - intros Hquiet. subst pass.
    rewrite (@until_raise_of_quiet_callbacks
               (fun l cb => Redraw.throws (behaviour l cb)) (values s)
               Hquiet).
    cbn [fst snd app]. split; [reflexivity|].
    intros cb. destruct (Hregistry cb) as [Hnd Hin].
    destruct (registered_after cb actions false).
    + apply NoDup_count_occ'; [exact Hnd | apply Hin; reflexivity].
    + apply count_occ_not_In. intros H. apply Hin in H. discriminate.
Qed.

(** Registered twice and unregistered once, 7 is gone; of 3, 5 and 9, with
    5 raising, the pass invokes 3 and 5 and not 9. *)
Example double_registration_and_a_raising_callback :
  let s := fold_left Redraw.act
             [Redraw.Register 7%nat; Redraw.Register 3%nat;
              Redraw.Register 7%nat; Redraw.Unregister 7%nat;
              Redraw.Register 5%nat; Redraw.Register 9%nat] [] in
  let behaviour := fun (_ : list Redraw.Callback) (cb : Redraw.Callback) =>
    {| Redraw.does := []; Redraw.throws := Nat.eqb cb 5 |} in
  values s = [3%nat; 5%nat; 9%nat] /\
  option_map Redraw.invoked (Redraw.triggerRedraw 10 behaviour s)
  = Some [3%nat; 5%nat] /\
  option_map Redraw.raised (Redraw.triggerRedraw 10 behaviour s)
  = Some true.
Proof. repeat split; reflexivity. Qed.

(** A callback that unregisters the one after it keeps it from being
    invoked in the pass under way. *)
Example unregistered_during_the_pass :
  let s := fold_left Redraw.act
             [Redraw.Register 1%nat; Redraw.Register 2%nat;
              Redraw.Register 3%nat] [] in
  let behaviour := fun (_ : list Redraw.Callback) (cb : Redraw.Callback) =>
    {| Redraw.does := if Nat.eqb cb 1 then [Redraw.Unregister 2%nat] else [];
       Redraw.throws := false |} in
  option_map Redraw.invoked (Redraw.triggerRedraw 10 behaviour s)
  = Some [1%nat; 3%nat].
Proof. reflexivity. Qed.
